(** * Satellite dashboard: registry and alert lifecycle of [App.tsx]

    A shallow embedding of the state handling of the single React component
    of the repository ([src/App.tsx]): the satellite registry, the delayed
    hazard-evaluation task with its two alert producers, and the execution
    of an alert.  React state is passed explicitly; the values the component
    reads from its environment ([Date.now()], [Math.random()], the answer of
    the HTTP feed) are arguments of the functions that read them. *)

From Stdlib Require Import ZArith List String Ascii Bool Lia.
From Stdlib Require Import Floats.SpecFloat.
Import ListNotations.

Open Scope bool_scope.
Open Scope string_scope.
Open Scope list_scope.
Open Scope Z_scope.

(** ** The JavaScript values and builtins the component uses *)

Module JS.

(** A JS [number] that holds a measurement or a random draw is a binary64
    float; [spec_float] is the Standard Library's executable description of
    IEEE 754 values.  Identifiers ([Date.now()] and sums of it with an
    integer below 1000) are integers far below 2^53, where binary64
    arithmetic is exact: they are kept in [Z]. *)
Definition number := spec_float.

Definition prec : Z := 53.
Definition emax : Z := 1024.

Definition ltb (x y : number) : bool := SFltb x y.
Definition mul (x y : number) : number := SFmul prec emax x y.

(** The nearest binary64 value of an integer. *)
Definition ofZ (n : Z) : number := binary_normalize prec emax n 0 false.

(** The nearest binary64 value of the decimal [m * 10^e]. *)
Definition ofDecimal (neg : bool) (m : N) (e : Z) : number :=
  match m with
  | N0 => S754_zero neg
  | Npos p =>
      match e with
      | Zneg k =>
          SFdiv prec emax (S754_finite neg p 0)
                (S754_finite false (Pos.pow 10 k) 0)
      | _ => binary_round prec emax neg (Pos.mul p (Z.to_pos (10 ^ e))) 0
      end
  end.

(** [Math.floor] of a number, as an integer; the arguments the component
    passes are finite (a product of a draw in [0,1) with 1000), the other
    values are mapped to 0. *)
Definition floor (x : number) : Z :=
  match x with
  | S754_finite s m e =>
      let v := if s then Zneg m else Zpos m in
      if 0 <=? e then Z.shiftl v e else Z.shiftr v (- e)
  | _ => 0
  end.

(** The exact value of [x] is below the fraction [p / q], for [0 < q]. *)
Definition belowFraction (x : number) (p q : Z) : bool :=
  match x with
  | S754_zero _ => 0 <? p
  | S754_finite s m e =>
      let v := if s then Zneg m else Zpos m in
      if 0 <=? e then v * 2 ^ e * q <? p else v * q <? p * 2 ^ (- e)
  | S754_infinity s => s
  | S754_nan => false
  end.

Definition isNaN (x : number) : bool :=
  match x with S754_nan => true | _ => false end.

(** A value as [JSON.parse] builds it: what the feed's answer, and each
    field of it, can be. *)
#[local] Set Warnings "-register-all".
Inductive json :=
| JNull
| JBool (b : bool)
| JNumber (x : number)
| JString (s : string)
| JArray (elems : list json)
| JObject (fields : list (string * json)).

(** [o.key] on a parsed object: the last field of that name, [undefined]
    ([None]) without one. *)
Fixpoint property (key : string) (fields : list (string * json)) : option json :=
  match fields with
  | [] => None
  | (k, v) :: rest =>
      match property key rest with
      | Some v' => Some v'
      | None => if String.eqb k key then Some v else None
      end
  end.

(** [!s] for a string: only the empty string is falsy. *)
Definition falsy (s : string) : bool :=
  match s with EmptyString => true | String _ _ => false end.

(** [s.includes(sub)] *)
Fixpoint includes (s sub : string) : bool :=
  prefix sub s
  || match s with
     | EmptyString => false
     | String _ s' => includes s' sub
     end.

(** *** [parseFloat]

    Leading white space is skipped, then the longest prefix that is a
    [StrDecimalLiteral] is converted; [NaN] when there is none.  Strings
    are sequences of UTF-8 bytes here. *)

Definition isDigit (c : ascii) : bool :=
  let n := N_of_ascii c in ((48 <=? n) && (n <=? 57))%N.

Definition digitVal (c : ascii) : N := (N_of_ascii c - 48)%N.

(** Skips a run of decimal digits: their value appended to [acc], how many
    there were, and the rest of the string. *)
Fixpoint digits (s : string) (acc : N) (cnt : nat) : N * nat * string :=
  match s with
  | String c s' =>
      if isDigit c then digits s' (acc * 10 + digitVal c)%N (S cnt)
      else (acc, cnt, s)
  | EmptyString => (acc, cnt, s)
  end.

Definition wsBytes : list string :=
  [ String (ascii_of_N 9) ""; String (ascii_of_N 10) "";
    String (ascii_of_N 11) ""; String (ascii_of_N 12) "";
    String (ascii_of_N 13) ""; " ";
    (* U+00A0, U+1680, U+2000..U+200A, U+2028, U+2029, U+202F, U+205F,
       U+3000, U+FEFF *)
    String (ascii_of_N 194) (String (ascii_of_N 160) "");
    String (ascii_of_N 225) (String (ascii_of_N 154) (String (ascii_of_N 128) ""));
    String (ascii_of_N 226) (String (ascii_of_N 128) (String (ascii_of_N 128) ""));
    String (ascii_of_N 226) (String (ascii_of_N 128) (String (ascii_of_N 129) ""));
    String (ascii_of_N 226) (String (ascii_of_N 128) (String (ascii_of_N 130) ""));
    String (ascii_of_N 226) (String (ascii_of_N 128) (String (ascii_of_N 131) ""));
    String (ascii_of_N 226) (String (ascii_of_N 128) (String (ascii_of_N 132) ""));
    String (ascii_of_N 226) (String (ascii_of_N 128) (String (ascii_of_N 133) ""));
    String (ascii_of_N 226) (String (ascii_of_N 128) (String (ascii_of_N 134) ""));
    String (ascii_of_N 226) (String (ascii_of_N 128) (String (ascii_of_N 135) ""));
    String (ascii_of_N 226) (String (ascii_of_N 128) (String (ascii_of_N 136) ""));
    String (ascii_of_N 226) (String (ascii_of_N 128) (String (ascii_of_N 137) ""));
    String (ascii_of_N 226) (String (ascii_of_N 128) (String (ascii_of_N 138) ""));
    String (ascii_of_N 226) (String (ascii_of_N 128) (String (ascii_of_N 168) ""));
    String (ascii_of_N 226) (String (ascii_of_N 128) (String (ascii_of_N 169) ""));
    String (ascii_of_N 226) (String (ascii_of_N 128) (String (ascii_of_N 175) ""));
    String (ascii_of_N 226) (String (ascii_of_N 129) (String (ascii_of_N 159) ""));
    String (ascii_of_N 227) (String (ascii_of_N 128) (String (ascii_of_N 128) ""));
    String (ascii_of_N 239) (String (ascii_of_N 187) (String (ascii_of_N 191) "")) ].

(** The white space the string starts with, if any. *)
Definition leadingWs (s : string) : option string :=
  find (fun w => prefix w s) wsBytes.

Fixpoint trimStart (fuel : nat) (s : string) : string :=
  match fuel with
  | O => s
  | S fuel' =>
      match leadingWs s with
      | Some w => trimStart fuel'
                    (substring (String.length w)
                               (String.length s - String.length w) s)
      | None => s
      end
  end.

Definition signOf (s : string) : bool * string :=
  match s with
  | String "-" s' => (true, s')
  | String "+" s' => (false, s')
  | _ => (false, s)
  end.

(** The exponent part [e|E [+|-] digits], 0 and nothing consumed when the
    string does not start with a complete one. *)
Definition exponentPart (s : string) : Z :=
  match s with
  | String c s' =>
      if (Ascii.eqb c "e" || Ascii.eqb c "E")%bool then
        let '(neg, s'') := signOf s' in
        let '(v, cnt, _) := digits s'' 0%N O in
        match cnt with
        | O => 0
        | _ => if neg then - Z.of_N v else Z.of_N v
        end
      else 0
  | EmptyString => 0
  end.

(** *** The value of an [<input type="number">]

    The browser hands over the text only when it is a valid floating-point
    number ([-]? (digits [. digits]? | . digits) ([eE] [+-]? digits)?), and
    the empty string for any other text. *)

Definition validExponent (s : string) : bool :=
  match s with
  | EmptyString => true
  | String c s' =>
      if (Ascii.eqb c "e" || Ascii.eqb c "E")%bool then
        let s'' := match s' with
                   | String "-" t => t
                   | String "+" t => t
                   | _ => s'
                   end in
        let '(_, cnt, rest) := digits s'' 0%N O in
        match cnt, rest with
        | S _, EmptyString => true
        | _, _ => false
        end
      else false
  end.

Definition validFloat (s : string) : bool :=
  let s0 := match s with String "-" s' => s' | _ => s end in
  let '(_, icnt, s1) := digits s0 0%N O in
  match s1 with
  | String "." s1' =>
      let '(_, fcnt, s2) := digits s1' 0%N O in
      match fcnt with
      | O => false
      | S _ => validExponent s2
      end
  | _ =>
      match icnt with
      | O => false
      | S _ => validExponent s1
      end
  end.

Definition numberInputValue (text : string) : string :=
  if validFloat text then text else "".

Definition parseFloat (input : string) : number :=
  let '(neg, s) := signOf (trimStart (String.length input) input) in
  if prefix "Infinity" s then S754_infinity neg
  else
    let '(ip, icnt, s1) := digits s 0%N O in
    let '(m, fcnt, s2) :=
      match s1 with
      | String "." s1' =>
          let '(m, fcnt, s2) := digits s1' ip O in
          match icnt, fcnt with
          | O, O => (ip, O, s1)
          | _, _ => (m, fcnt, s2)
          end
      | _ => (ip, O, s1)
      end in
    match icnt, fcnt with
    | O, O => S754_nan
    | _, _ => ofDecimal neg m (exponentPart s2 - Z.of_nat fcnt)
    end.

End JS.

(** A string where a parsed value is expected is that string as a value. *)
Coercion JS.JString : string >-> JS.json.

(** ** Data model *)

Module Satellite.
Record t := mk
  { id : Z; name : string; altitude : JS.number; inclination : JS.number }.
End Satellite.

Module Alert.
(** [message] is declared a [string]; it holds what the producer put
    there, which for the space-weather alert is the [message] of a feed
    element as parsed, a string or an array. *)
Record t := mk
  { id : Z; satelliteId : Z; message : JS.json; action : string;
    executed : bool }.

(** [{ ...a, executed: true }] *)
Definition markExecuted (a : t) : t :=
  mk (id a) (satelliteId a) (message a) (action a) true.
End Alert.

(** The component's state: the six [useState] cells, and the callbacks
    handed to [setTimeout] that have not run yet, each with the time before
    which it cannot run and the [newSat] its closure captured. *)
Record State := mkState
  { satellites : list Satellite.t;
    alerts : list Alert.t;
    executedActions : list string;
    name : string;
    altitude : string;
    inclination : string;
    timers : list (Z * Satellite.t) }.

Definition initial : State := mkState [] [] [] "" "" "" [].

(** The state setters; [setSatellites], [setAlerts] and
    [setExecutedActions] are only called with an updater function. *)
Definition setSatellites (f : list Satellite.t -> list Satellite.t) (st : State) :=
  mkState (f (satellites st)) (alerts st) (executedActions st)
          (name st) (altitude st) (inclination st) (timers st).
Definition setAlerts (f : list Alert.t -> list Alert.t) (st : State) :=
  mkState (satellites st) (f (alerts st)) (executedActions st)
          (name st) (altitude st) (inclination st) (timers st).
Definition setExecutedActions (f : list string -> list string) (st : State) :=
  mkState (satellites st) (alerts st) (f (executedActions st))
          (name st) (altitude st) (inclination st) (timers st).
Definition setName (v : string) (st : State) :=
  mkState (satellites st) (alerts st) (executedActions st)
          v (altitude st) (inclination st) (timers st).
Definition setAltitude (v : string) (st : State) :=
  mkState (satellites st) (alerts st) (executedActions st)
          (name st) v (inclination st) (timers st).
Definition setInclination (v : string) (st : State) :=
  mkState (satellites st) (alerts st) (executedActions st)
          (name st) (altitude st) v (timers st).
Definition setTimeout (sat : Satellite.t) (due : Z) (st : State) :=
  mkState (satellites st) (alerts st) (executedActions st)
          (name st) (altitude st) (inclination st) (timers st ++ [(due, sat)]).

(** ** The alert feed *)

(** What [axios.get] gives back.  An element of the array is told by what
    [alert.message.includes(...)] does on it: its [message] is a string
    (sub-string search), or an array (search for an element equal to the
    text), or the call throws (the element is [null], has no [message], or
    one that is [null], a number, a boolean or an object). *)
Inductive advisory :=
| Advisory (message : string)
| ArrayMessage (elems : list JS.json)
| NoMessage.

Inductive response :=
| Rejected                       (* the request fails *)
| NotAnArray                     (* [response.data] has no [filter] *)
| Data (advs : list advisory).

(** Code inside [try]: [None] is a thrown exception. *)
Definition exn (A : Type) := option A.
Definition bind {A B} (m : exn A) (k : A -> exn B) : exn B :=
  match m with Some a => k a | None => None end.
Notation "x <- m ;; k" := (bind m (fun x => k))
  (at level 61, m at next level, right associativity).

Fixpoint filterE {A} (p : A -> exn bool) (l : list A) : exn (list A) :=
  match l with
  | [] => Some []
  | x :: l' =>
      b <- p x ;;
      r <- filterE p l' ;;
      Some (if b then x :: r else r)
  end.

Fixpoint mapE {A B} (f : A -> exn B) (l : list A) : exn (list B) :=
  match l with
  | [] => Some []
  | x :: l' => y <- f x ;; r <- mapE f l' ;; Some (y :: r)
  end.

(** [alert.message] *)
Definition messageOf (a : advisory) : exn JS.json :=
  match a with
  | Advisory m => Some (JS.JString m)
  | ArrayMessage elems => Some (JS.JArray elems)
  | NoMessage => None
  end.

(** [v === text] *)
Definition isText (text : string) (v : JS.json) : bool :=
  match v with JS.JString s => String.eqb s text | _ => false end.

(** [alert.message.includes('Coronal Mass Ejection')] *)
Definition isCME (a : advisory) : exn bool :=
  match a with
  | Advisory m => Some (JS.includes m "Coronal Mass Ejection")
  | ArrayMessage elems => Some (existsb (isText "Coronal Mass Ejection") elems)
  | NoMessage => None
  end.

(** The typed signature says [string[]]; the elements are the [message]
    values as they came. *)
Definition fetchCMEAlerts (r : response) : list JS.json :=
  let body :=
    alerts <- match r with Data advs => Some advs | _ => None end ;;
    matching <- filterE isCME alerts ;;
    mapE messageOf matching in
  match body with
  | Some cmeAlerts => cmeAlerts
  | None => []                      (* catch *)
  end.

(** How a parsed element of the array, and a parsed answer ([None]: the
    request was rejected), fall under these cases. *)
Definition advisoryOf (element : JS.json) : advisory :=
  match element with
  | JS.JObject fields =>
      match JS.property "message" fields with
      | Some (JS.JString m) => Advisory m
      | Some (JS.JArray elems) => ArrayMessage elems
      | _ => NoMessage
      end
  | _ => NoMessage
  end.

Definition responseOf (answer : option JS.json) : response :=
  match answer with
  | None => Rejected
  | Some (JS.JArray elements) => Data (map advisoryOf elements)
  | Some _ => NotAnArray
  end.

(** ** The conjunction simulator *)

(** [chance] and [draw] are its two [Math.random()] draws, in this order,
    [now] its [Date.now()]; the threshold is the literal [0.4]. *)

Definition simulateConjunctionAlert
    (chance : JS.number) (now : Z) (draw : JS.number) (satelliteId : Z)
  : option Alert.t :=
  if JS.ltb chance (JS.ofDecimal false 4 (-1)) then None
  else Some (Alert.mk (now + JS.floor (JS.mul draw (JS.ofZ 1000)))
                      satelliteId
                      "Conjunction alert: Possible collision with space debris!"
                      "Perform evasive maneuver or adjust orbit"
                      false).

(** ** Adding a satellite and its delayed hazard evaluation *)

(** What one run of the delayed task reads from outside: the feed's
    answer, [Date.now()] when the space-weather alert is built, the two
    [Math.random()] draws of the simulator and its [Date.now()]. *)
Record TaskEnv := mkEnv
  { feed : response; nowCme : Z; chance : JS.number; nowConj : Z;
    draw : JS.number }.

Definition hazardTask (env : TaskEnv) (newSat : Satellite.t) (st : State) : State :=
  let cmeMessages := fetchCMEAlerts (feed env) in
  let st1 :=
    match cmeMessages with
    | m :: _ =>
        let alert :=
          Alert.mk (nowCme env) (Satellite.id newSat) m
                   "Switch off non-critical electronics and shield instruments"
                   false in
        setAlerts (fun prev => prev ++ [alert]) st
    | [] => st
    end in
  match simulateConjunctionAlert (chance env) (nowConj env) (draw env)
                                 (Satellite.id newSat) with
  | Some conjunctionAlert => setAlerts (fun prev => prev ++ [conjunctionAlert]) st1
  | None => st1
  end.

Definition addSatellite (now : Z) (st : State) : State :=
  if JS.falsy (name st) || JS.falsy (altitude st) || JS.falsy (inclination st)
  then st
  else
    let newSat :=
      Satellite.mk now (name st) (JS.parseFloat (altitude st))
                   (JS.parseFloat (inclination st)) in
    setTimeout newSat (now + 10000)
      (setInclination ""
        (setAltitude ""
          (setName ""
            (setSatellites (fun prev => prev ++ [newSat]) st)))).

(** ** Executing an alert *)

Definition satNameOf (st : State) (alert : Alert.t) : string :=
  match find (fun s => Satellite.id s =? Alert.satelliteId alert) (satellites st) with
  | Some s => if JS.falsy (Satellite.name s) then "Unknown Satellite"
              else Satellite.name s
  | None => "Unknown Satellite"
  end.

Definition logEntry (satName action : string) : string :=
  ("✅ Action executed for " ++ satName ++ ": " ++ action)%string.

(** The alert passed in is read only: the mark [executed: true] goes on
    the copies [{ ...a, executed: true }] made inside the updater, which
    the [filter] that follows drops. *)
Definition executeAction (alert : Alert.t) (st : State) : State :=
  if Alert.executed alert then st
  else
    let satName := satNameOf st alert in
    let log := logEntry satName (Alert.action alert) in
    setAlerts
      (fun prev =>
         filter (fun a => negb (Alert.id a =? Alert.id alert))
           (map (fun a => if Alert.id a =? Alert.id alert
                          then Alert.markExecuted a else a) prev))
      (setExecutedActions (fun prev => prev ++ [log]) st).

(** The handler of a button is the [executeAction] of the render that
    drew the button: it reads the registry of that render, [rendered], while
    its updaters work on the state at the time of the press.  For a button
    of the current render, this is [executeAction]. *)
Definition executeActionFrom (rendered : State) (alert : Alert.t) (st : State) : State :=
  if Alert.executed alert then st
  else
    let satName := satNameOf rendered alert in
    let log := logEntry satName (Alert.action alert) in
    setAlerts
      (fun prev =>
         filter (fun a => negb (Alert.id a =? Alert.id alert))
           (map (fun a => if Alert.id a =? Alert.id alert
                          then Alert.markExecuted a else a) prev))
      (setExecutedActions (fun prev => prev ++ [log]) st).

(** ** The component as a transition system *)

(** A draw of [Math.random()]: a binary64 value [x] with [0 <= x < 1]. *)
Definition isDraw (x : JS.number) : bool :=
  match x with
  | S754_zero false => true
  | S754_finite false m e => bounded JS.prec JS.emax m e && JS.ltb x (JS.ofZ 1)
  | _ => false
  end.

(** What can happen to the mounted component: the user edits one of the
    three inputs ([v] is the input's new value), presses "Add Satellite"
    (at time [now]), the delayed task of the [k]-th pending timer runs to
    its end, or the user presses "Execute Action" on the [k]-th listed
    alert.  The task changes the state only after its [await], in one go:
    it is one event, at the time the feed has answered. *)
Inductive event :=
| TypeName (v : string)
| TypeAltitude (v : string)
| TypeInclination (v : string)
| ClickAdd (now : Z)
| TaskRuns (k : nat) (env : TaskEnv)
| ClickExecute (k : nat).

Definition dropTimer (k : nat) (st : State) : State :=
  mkState (satellites st) (alerts st) (executedActions st)
          (name st) (altitude st) (inclination st)
          (firstn k (timers st) ++ skipn (S k) (timers st)).

(** One event, from the state [st] last changed at time [clock]; [None]
    when the event is not one of these runs: here [Date.now()] does not go
    back, a timer set at [t] runs no earlier than [t + 10000], the two
    numeric inputs hand over what a number input hands over, and the button
    pressed is the one the current render drew for a listed alert.  Each
    run is a run of the component; it is with such runs that states are
    shown to occur.  What holds of every state is proved of [possible]
    below, which assumes none of this. *)
Definition handle (e : event) (w : Z * State) : option (Z * State) :=
  let '(clock, st) := w in
  match e with
  | TypeName v => Some (clock, setName v st)
  | TypeAltitude v => Some (clock, setAltitude (JS.numberInputValue v) st)
  | TypeInclination v => Some (clock, setInclination (JS.numberInputValue v) st)
  | ClickAdd now =>
      if clock <=? now then Some (now, addSatellite now st) else None
  | TaskRuns k env =>
      match nth_error (timers st) k with
      | Some (due, newSat) =>
          if (due <=? nowCme env) && (clock <=? nowCme env)
             && (nowCme env <=? nowConj env)
             && isDraw (chance env) && isDraw (draw env)
          then Some (nowConj env, hazardTask env newSat (dropTimer k st))
          else None
      | None => None
      end
  | ClickExecute k =>
      match nth_error (alerts st) k with
      | Some alert =>
          if Alert.executed alert then None
          else Some (clock, executeAction alert st)
      | None => None
      end
  end.

Fixpoint run (trace : list event) (w : Z * State) : option (Z * State) :=
  match trace with
  | [] => Some w
  | e :: trace' =>
      match handle e w with
      | Some w' => run trace' w'
      | None => None
      end
  end.

(** The states the component can be in, some time after it was mounted at
    time [t0]. *)
Definition reachable (st : State) : Prop :=
  exists t0 trace t, run trace (t0, initial) = Some (t, st).

(** *** Everything the component can do

    No assumption on the time source, on the values drawn, on the texts in
    the inputs, on when or in which order pending timers run, or on which
    render a pressed button belongs to (with alerts that share an
    identifier, a button of an earlier render can stay on the page): a
    button is one that some render drew, so its alert has
    [executed = false]. *)
Inductive action :=
| SetName (v : string)
| SetAltitude (v : string)
| SetInclination (v : string)
| Add (now : Z)
| Task (k : nat) (env : TaskEnv)
| Press (rendered : State) (alert : Alert.t).

Definition perform (a : action) (st : State) : option State :=
  match a with
  | SetName v => Some (setName v st)
  | SetAltitude v => Some (setAltitude v st)
  | SetInclination v => Some (setInclination v st)
  | Add now => Some (addSatellite now st)
  | Task k env =>
      match nth_error (timers st) k with
      | Some (_, newSat) => Some (hazardTask env newSat (dropTimer k st))
      | None => None
      end
  | Press rendered alert =>
      if Alert.executed alert then None
      else Some (executeActionFrom rendered alert st)
  end.

Fixpoint performAll (l : list action) (st : State) : option State :=
  match l with
  | [] => Some st
  | a :: l' =>
      match perform a st with
      | Some st' => performAll l' st'
      | None => None
      end
  end.

Definition possible (st : State) : Prop :=
  exists l, performAll l initial = Some st.

(** The active-alert collection holds pending alerts only. *)
Definition allPending (st : State) : Prop :=
  Forall (fun a => Alert.executed a = false) (alerts st).

(** How many active alerts carry the identifier [i]. *)
Definition countId (i : Z) (l : list Alert.t) : nat :=
  List.length (filter (fun a => Alert.id a =? i) l).

(** ** Vocabulary of the properties *)

(** The alert the space-weather check builds from the message [m]. *)
Definition cmeAlertFor (env : TaskEnv) (newSat : Satellite.t) (m : JS.json) : Alert.t :=
  Alert.mk (nowCme env) (Satellite.id newSat) m
           "Switch off non-critical electronics and shield instruments" false.

(** The alert the conjunction check builds. *)
Definition conjunctionAlertFor (env : TaskEnv) (newSat : Satellite.t) : Alert.t :=
  Alert.mk (nowConj env + JS.floor (JS.mul (draw env) (JS.ofZ 1000)))
           (Satellite.id newSat)
           "Conjunction alert: Possible collision with space debris!"
           "Perform evasive maneuver or adjust orbit" false.

Definition optList {A} (o : option A) : list A :=
  match o with Some a => [a] | None => [] end.

(** The message of an element that has one. *)
Definition valueOf (a : advisory) : JS.json :=
  match messageOf a with Some v => v | None => JS.JNull end.

Definition cmeb (a : advisory) : bool :=
  match isCME a with Some b => b | None => false end.

(** The advisory is about a coronal mass ejection, as the check sees it:
    its message is a string with that text in it, or an array with that
    text as one of its elements. *)
Definition mentionsCME (a : advisory) : Prop :=
  match a with
  | Advisory m => exists p q, m = (p ++ "Coronal Mass Ejection" ++ q)%string
  | ArrayMessage elems => In (JS.JString "Coronal Mass Ejection") elems
  | NoMessage => False
  end.

(** What the feed's answer amounts to: nothing when the request failed,
    when the answer is no array, or when one element of the array makes the
    search throw; otherwise the message of the first element, in feed
    order, that is about a coronal mass ejection, and nothing when there is
    none. *)
Inductive feedOutcome : response -> option JS.json -> Prop :=
| Feed_rejected : feedOutcome Rejected None
| Feed_not_an_array : feedOutcome NotAnArray None
| Feed_malformed advs :
    In NoMessage advs -> feedOutcome (Data advs) None
| Feed_no_match advs :
    ~ In NoMessage advs ->
    (forall a, In a advs -> ~ mentionsCME a) ->
    feedOutcome (Data advs) None
| Feed_first_match pre a m post :
    ~ In NoMessage (pre ++ a :: post) ->
    (forall x, In x pre -> ~ mentionsCME x) ->
    mentionsCME a ->
    messageOf a = Some m ->
    feedOutcome (Data (pre ++ a :: post)) (Some m).

(** *** A run of the component

    One satellite is added; ten seconds later the feed carries one
    coronal-mass-ejection advisory, the simulator's first draw is 0.5 and
    its second 0.0005, within the millisecond in which the space-weather
    alert was built. *)

Definition issForm : State :=
  setInclination "51.6" (setAltitude "400" (setName "ISS" initial)).

Definition collisionEnv : TaskEnv :=
  mkEnv (Data [Advisory "Coronal Mass Ejection detected"])
        1700000010020 (JS.ofDecimal false 5 (-1))
        1700000010020 (JS.ofDecimal false 5 (-4)).

Definition collisionTrace : list event :=
  [ TypeName "ISS"; TypeAltitude "400"; TypeInclination "51.6";
    ClickAdd 1700000000000; TaskRuns 0 collisionEnv ].

Definition iss : Satellite.t :=
  Satellite.mk 1700000000000 "ISS" (JS.parseFloat "400") (JS.parseFloat "51.6").

Definition issCme : Alert.t := cmeAlertFor collisionEnv iss "Coronal Mass Ejection detected".

Definition issConjunction : Alert.t := conjunctionAlertFor collisionEnv iss.

Definition collisionState : State :=
  mkState [iss] [issCme; issConjunction] [] "" "" "" [].

(** A feed that holds a matching advisory and an element without a
    message, with a simulator that draws 0.1. *)
Definition mixedEnv : TaskEnv :=
  mkEnv (Data [Advisory "Coronal Mass Ejection detected"; NoMessage])
        1700000010020 (JS.ofDecimal false 1 (-1))
        1700000010020 (JS.ofDecimal false 5 (-1)).

(** The same run when the simulator's first draw is 0.1: the
    space-weather alert alone. *)
Definition cmeOnlyEnv : TaskEnv :=
  mkEnv (Data [Advisory "Coronal Mass Ejection detected"])
        1700000010020 (JS.ofDecimal false 1 (-1))
        1700000010020 (JS.ofDecimal false 5 (-1)).

Definition cmeOnlyTrace : list event :=
  [ TypeName "ISS"; TypeAltitude "400"; TypeInclination "51.6";
    ClickAdd 1700000000000; TaskRuns 0 cmeOnlyEnv ].

Definition cmeOnlyState : State :=
  mkState [iss] [issCme] [] "" "" "" [].

(** An environment whose feed is down and whose simulator draws 0.1. *)
Definition quietEnv : TaskEnv :=
  mkEnv Rejected 1700000010020 (JS.ofDecimal false 1 (-1))
        1700000010020 (JS.ofDecimal false 5 (-1)).

(** ** What is drawn and what is listed *)

(** In the scene, for each satellite: [alerts.some(...)], and the colour
    of the sphere that stands for it. *)
Definition hasAlert (st : State) (sat : Satellite.t) : bool :=
  existsb (fun alert => Alert.satelliteId alert =? Satellite.id sat) (alerts st).

Definition satColor (st : State) (sat : Satellite.t) : Z :=
  if hasAlert st sat then 0xff0000 else 0xffaa00.

(** In the list of alerts, for each alert: the satellite name put in front
    of the message, [undefined] ([None] here) when no satellite matches, and
    whether the "Execute Action" button is rendered. *)
Definition alertLabel (st : State) (alert : Alert.t) : option string :=
  option_map Satellite.name
    (find (fun s => Satellite.id s =? Alert.satelliteId alert) (satellites st)).

Definition showsButton (alert : Alert.t) : bool := negb (Alert.executed alert).

(** ** Vocabulary of the properties of runs *)

Definition isTask (a : action) : bool :=
  match a with Task _ _ => true | _ => false end.

Definition isPress (a : action) : bool :=
  match a with Press _ _ => true | _ => false end.

(** What holds of the component whatever it did: registered satellites
    have a name; a pending timer stands for a registered satellite; the
    [satelliteId] of an active alert is the identifier of a registered
    satellite; and the active alerts are at most two for each task that has
    run (each registered satellite has one, pending or done). *)
Definition linked (st : State) : Prop :=
  Forall (fun s => Satellite.name s <> "") (satellites st)
  /\ Forall (fun d => In (snd d) (satellites st)) (timers st)
  /\ Forall (fun a => exists s, In s (satellites st)
                                /\ Satellite.id s = Alert.satelliteId a)
            (alerts st)
  /\ (List.length (alerts st) + 2 * List.length (timers st)
      <= 2 * List.length (satellites st))%nat.

(** The value [m * 2^e], for a negative [e], is below 1000. *)
Definition below1000 (m e : Z) : Prop := e <= -43 /\ 0 <= m < 1000 * 2 ^ (- e).

(** * Properties *)

(** ** Executing an alert *)

Lemma filter_map_marked (i : Z) (l : list Alert.t) :
  filter (fun a => negb (Alert.id a =? i))
         (map (fun a => if Alert.id a =? i then Alert.markExecuted a else a) l)
  = filter (fun a => negb (Alert.id a =? i)) l.
Proof.
  induction l as [|a l IH]; simpl; [reflexivity|].
  destruct (Alert.id a =? i) eqn:E; simpl.
  - rewrite E. simpl. exact IH.
  - rewrite E. simpl. now rewrite IH.
Qed.

Lemma executeAction_alerts (alert : Alert.t) (st : State) :
  Alert.executed alert = false ->
  alerts (executeAction alert st)
  = filter (fun a => negb (Alert.id a =? Alert.id alert)) (alerts st).
Proof.
  intros H. unfold executeAction. rewrite H. simpl.
  apply filter_map_marked.
Qed.

Lemma executeAction_log (alert : Alert.t) (st : State) :
  Alert.executed alert = false ->
  executedActions (executeAction alert st)
  = executedActions st ++ [logEntry (satNameOf st alert) (Alert.action alert)].
Proof.
  intros H. unfold executeAction. now rewrite H.
Qed.

Lemma executeAction_executed (alert : Alert.t) (st : State) :
  Alert.executed alert = true -> executeAction alert st = st.
Proof.
  intros H. unfold executeAction. now rewrite H.
Qed.

Lemma executeAction_satellites (alert : Alert.t) (st : State) :
  satellites (executeAction alert st) = satellites st.
Proof.
  unfold executeAction. now destruct (Alert.executed alert).
Qed.

Lemma filter_length_split {A} (p : A -> bool) (l : list A) :
  (List.length (filter p l) + List.length (filter (fun x => negb (p x)) l)
   = List.length l)%nat.
Proof.
  induction l as [|x l IH]; simpl; [reflexivity|].
  destruct (p x); simpl; lia.
Qed.

(** An execution removes as many alerts as carry the executed alert's
    identifier. *)
Lemma executeAction_length (alert : Alert.t) (st : State) :
  Alert.executed alert = false ->
  (List.length (alerts (executeAction alert st))
   + countId (Alert.id alert) (alerts st)
   = List.length (alerts st))%nat.
Proof.
  intros H. rewrite executeAction_alerts by assumption.
  unfold countId.
  pose proof (filter_length_split (fun a => Alert.id a =? Alert.id alert)
                                  (alerts st)).
  lia.
Qed.

(** With an identifier no other active alert carries, executing a pending
    active alert logs one entry, removes one alert, and that alert is gone. *)
Lemma executeAction_unique_id (alert : Alert.t) (st : State) :
  Alert.executed alert = false ->
  In alert (alerts st) ->
  countId (Alert.id alert) (alerts st) = 1%nat ->
  executedActions (executeAction alert st)
  = executedActions st ++ [logEntry (satNameOf st alert) (Alert.action alert)]
  /\ S (List.length (alerts (executeAction alert st))) = List.length (alerts st)
  /\ ~ In alert (alerts (executeAction alert st)).
Proof.
  intros Hx Hin Hc. split; [|split].
  - now apply executeAction_log.
  - pose proof (executeAction_length alert st Hx). lia.
  - rewrite executeAction_alerts by assumption.
    rewrite filter_In. intros [_ Hn].
    now rewrite Z.eqb_refl in Hn.
Qed.

(** ** The hazard-evaluation task *)

(** The task appends what the space-weather check produced, then what the
    conjunction check produced, and touches nothing else. *)
Lemma hazardTask_alerts (env : TaskEnv) (newSat : Satellite.t) (st : State) :
  alerts (hazardTask env newSat st)
  = alerts st
    ++ optList (option_map (cmeAlertFor env newSat) (hd_error (fetchCMEAlerts (feed env))))
    ++ optList (simulateConjunctionAlert (chance env) (nowConj env) (draw env)
                                         (Satellite.id newSat)).
Proof.
  unfold hazardTask.
  destruct (fetchCMEAlerts (feed env)) as [|m ms];
    destruct (simulateConjunctionAlert _ _ _ _); simpl;
    rewrite <- ?app_assoc, ?app_nil_r; reflexivity.
Qed.

Lemma hazardTask_frame (env : TaskEnv) (newSat : Satellite.t) (st : State) :
  satellites (hazardTask env newSat st) = satellites st
  /\ executedActions (hazardTask env newSat st) = executedActions st
  /\ timers (hazardTask env newSat st) = timers st.
Proof.
  unfold hazardTask.
  destruct (fetchCMEAlerts (feed env));
    destruct (simulateConjunctionAlert _ _ _ _); simpl; auto.
Qed.

Lemma simulateConjunctionAlert_pending chance now draw sid a :
  simulateConjunctionAlert chance now draw sid = Some a ->
  Alert.executed a = false /\ Alert.satelliteId a = sid.
Proof.
  unfold simulateConjunctionAlert.
  destruct (JS.ltb _ _); [discriminate|].
  intros [= <-]. split; reflexivity.
Qed.

(** ** Pending alerts only: the invariant, operation by operation *)

Lemma allPending_initial : allPending initial.
Proof. constructor. Qed.

Lemma addSatellite_alerts (now : Z) (st : State) :
  alerts (addSatellite now st) = alerts st.
Proof.
  unfold addSatellite.
  destruct (JS.falsy (name st) || JS.falsy (altitude st) || JS.falsy (inclination st));
    reflexivity.
Qed.

Lemma addSatellite_pending (now : Z) (st : State) :
  allPending st -> allPending (addSatellite now st).
Proof.
  unfold allPending. now rewrite addSatellite_alerts.
Qed.

Lemma hazardTask_pending (env : TaskEnv) (newSat : Satellite.t) (st : State) :
  allPending st -> allPending (hazardTask env newSat st).
Proof.
  unfold allPending. intros H. rewrite hazardTask_alerts.
  repeat (apply Forall_app; split); try assumption.
  - destruct (hd_error (fetchCMEAlerts (feed env))); simpl; repeat constructor.
  - destruct (simulateConjunctionAlert _ _ _ _) as [a|] eqn:E; simpl;
      repeat constructor.
    now apply simulateConjunctionAlert_pending in E.
Qed.

(** For any argument, pending or not, listed or not. *)
Lemma executeAction_pending (alert : Alert.t) (st : State) :
  allPending st -> allPending (executeAction alert st).
Proof.
  unfold allPending. intros H.
  destruct (Alert.executed alert) eqn:E.
  - now rewrite executeAction_executed.
  - rewrite executeAction_alerts by assumption.
    rewrite Forall_forall in *. intros a Ha.
    apply filter_In in Ha. now apply H.
Qed.

Lemma handle_pending (e : event) (w w' : Z * State) :
  handle e w = Some w' -> allPending (snd w) -> allPending (snd w').
Proof.
  destruct w as [clock st]. destruct e; simpl.
  - intros [= <-]. auto.
  - intros [= <-]. auto.
  - intros [= <-]. auto.
  - destruct (clock <=? now); [|discriminate].
    intros [= <-]. simpl. apply addSatellite_pending.
  - destruct (nth_error (timers st) k) as [[due newSat]|]; [|discriminate].
    destruct (_ && _); [|discriminate].
    intros [= <-]. simpl. intros H. now apply hazardTask_pending.
  - destruct (nth_error (alerts st) k) as [alert|]; [|discriminate].
    destruct (Alert.executed alert); [discriminate|].
    intros [= <-]. simpl. apply executeAction_pending.
Qed.

Lemma run_pending (trace : list event) :
  forall w w', run trace w = Some w' -> allPending (snd w) -> allPending (snd w').
Proof.
  induction trace as [|e trace IH]; simpl; intros w w'.
  - now intros [= <-].
  - destruct (handle e w) as [w1|] eqn:E; [|discriminate].
    intros Hrun Hw. eapply IH; [exact Hrun|].
    eapply handle_pending; eassumption.
Qed.

Lemma executeActionFrom_current (alert : Alert.t) (st : State) :
  executeActionFrom st alert st = executeAction alert st.
Proof. reflexivity. Qed.

Lemma executeActionFrom_alerts (rendered : State) (alert : Alert.t) (st : State) :
  alerts (executeActionFrom rendered alert st) = alerts (executeAction alert st).
Proof.
  unfold executeActionFrom, executeAction. now destruct (Alert.executed alert).
Qed.

Lemma executeActionFrom_pending (rendered : State) (alert : Alert.t) (st : State) :
  allPending st -> allPending (executeActionFrom rendered alert st).
Proof.
  unfold allPending. rewrite executeActionFrom_alerts.
  apply executeAction_pending.
Qed.

Lemma perform_pending (a : action) (st st' : State) :
  perform a st = Some st' -> allPending st -> allPending st'.
Proof.
  destruct a; simpl.
  - intros [= <-]. auto.
  - intros [= <-]. auto.
  - intros [= <-]. auto.
  - intros [= <-]. apply addSatellite_pending.
  - destruct (nth_error (timers st) k) as [[due newSat]|]; [|discriminate].
    intros [= <-] H. now apply hazardTask_pending.
  - destruct (Alert.executed alert); [discriminate|].
    intros [= <-]. apply executeActionFrom_pending.
Qed.

Lemma performAll_pending (l : list action) :
  forall st st', performAll l st = Some st' -> allPending st -> allPending st'.
Proof.
  induction l as [|a l IH]; simpl; intros st st'.
  - now intros [= <-].
  - destruct (perform a st) as [st1|] eqn:E; [|discriminate].
    intros Hrun Hst. eapply IH; [exact Hrun|].
    eapply perform_pending; eassumption.
Qed.

(** Each event of [handle] is something the component can do. *)
Lemma handle_perform (e : event) (c c' : Z) (st st' : State) :
  handle e (c, st) = Some (c', st') -> exists a, perform a st = Some st'.
Proof.
  destruct e; simpl handle.
  - intros [= _ <-]. now exists (SetName v).
  - intros [= _ <-]. now exists (SetAltitude (JS.numberInputValue v)).
  - intros [= _ <-]. now exists (SetInclination (JS.numberInputValue v)).
  - destruct (c <=? now); [|discriminate].
    intros [= _ <-]. now exists (Add now).
  - destruct (nth_error (timers st) k) as [[due newSat]|] eqn:Hk; [|discriminate].
    destruct (_ && _); [|discriminate].
    intros [= _ <-]. exists (Task k env). simpl. now rewrite Hk.
  - destruct (nth_error (alerts st) k) as [alert|]; [|discriminate].
    destruct (Alert.executed alert) eqn:E; [discriminate|].
    intros [= _ <-]. exists (Press st alert). simpl. now rewrite E.
Qed.

Lemma performAll_app (l l' : list action) (st st' st'' : State) :
  performAll l st = Some st' -> performAll l' st' = Some st'' ->
  performAll (l ++ l') st = Some st''.
Proof.
  revert st. induction l as [|a l IH]; simpl; intros st.
  - now intros [= ->].
  - destruct (perform a st) as [st1|]; [|discriminate]. apply IH.
Qed.

Lemma run_performAll (trace : list event) :
  forall c c' st st',
    run trace (c, st) = Some (c', st') ->
    exists l, performAll l st = Some st'.
Proof.
  induction trace as [|e trace IH]; intros c c' st st'; cbn [run].
  - intros [= _ <-]. now exists [].
  - destruct (handle e (c, st)) as [[c1 st1]|] eqn:E; [|discriminate].
    intros Hrun.
    destruct (handle_perform e c c1 st st1 E) as [a Ha].
    destruct (IH c1 c' st1 st' Hrun) as [l Hl].
    exists (a :: l). simpl. now rewrite Ha.
Qed.

(** What a run reaches is possible. *)
Lemma reachable_possible (st : State) : reachable st -> possible st.
Proof.
  intros (t0 & trace & t & Hrun). exact (run_performAll trace _ _ _ _ Hrun).
Qed.

(** C3: whatever the component does (forms submitted at any time, tasks
    run in any order with any answer of the feed and any draws, buttons
    pressed of the current render or of an earlier one), every alert of the
    active collection has [executed = false]: adding a satellite keeps the
    alerts, the task inserts pending alerts only, and an execution removes
    every alert it would mark. *)
Theorem active_alerts_pending (st : State) :
  possible st -> allPending st.
Proof.
  intros (l & Hl).
  apply (performAll_pending l initial st Hl).
  exact allPending_initial.
Qed.

Lemma collisionState_reachable : reachable collisionState.
Proof.
  exists 1699999990000, collisionTrace, 1700000010020.
  vm_compute. reflexivity.
Qed.

Lemma cmeOnlyState_reachable : reachable cmeOnlyState.
Proof.
  exists 1699999990000, cmeOnlyTrace, 1700000010020.
  vm_compute. reflexivity.
Qed.

Lemma collisionState_possible : possible collisionState.
Proof. apply reachable_possible, collisionState_reachable. Qed.

(** The collision state, after the space-weather alert was executed and a
    button that an earlier render drew for it is pressed again. *)
Lemma active_alerts_pending_witness :
  possible (executeActionFrom collisionState issCme
              (executeAction issCme collisionState))
  /\ allPending (executeActionFrom collisionState issCme
                   (executeAction issCme collisionState)).
Proof.
  assert (H : possible (executeActionFrom collisionState issCme
                          (executeAction issCme collisionState))).
  { destruct collisionState_possible as [l Hl].
    exists (l ++ [Press collisionState issCme; Press collisionState issCme]).
    apply (performAll_app l _ initial collisionState _ Hl). reflexivity. }
  split; [exact H|].
  apply (active_alerts_pending _ H).
Defined.

(** ** Frame of an execution *)

(** C10: an execution changes nothing but the active alerts and the log:
    registry, form inputs and pending timers stay; and the alerts that
    remain are those whose identifier differs from the executed alert's,
    so that none with that identifier is left, however many there were. *)
Theorem executeAction_frame (alert : Alert.t) (st : State) :
  satellites (executeAction alert st) = satellites st
  /\ name (executeAction alert st) = name st
  /\ altitude (executeAction alert st) = altitude st
  /\ inclination (executeAction alert st) = inclination st
  /\ timers (executeAction alert st) = timers st
  /\ alerts (executeAction alert st)
     = (if Alert.executed alert then alerts st
        else filter (fun a => negb (Alert.id a =? Alert.id alert)) (alerts st))
  /\ countId (Alert.id alert) (alerts (executeAction alert st))
     = (if Alert.executed alert then countId (Alert.id alert) (alerts st)
        else 0%nat).
Proof.
  destruct (Alert.executed alert) eqn:E.
  - rewrite executeAction_executed by assumption. repeat split.
  - repeat split; try (unfold executeAction; rewrite E; reflexivity).
    + now apply executeAction_alerts.
    + rewrite executeAction_alerts by assumption.
      unfold countId. generalize (alerts st) as l.
      induction l as [|a l IH]; simpl; [reflexivity|].
      destruct (Alert.id a =? Alert.id alert) eqn:Ea; simpl; [exact IH|].
      now rewrite Ea.
Qed.

(** ** The name written to the log *)

Lemma prefix_app (s t : string) : prefix s (s ++ t)%string = true.
Proof.
  induction s as [|c s IH]; simpl; [now destruct t|].
  destruct (ascii_dec c c); [exact IH|contradiction].
Qed.

Lemma includes_app (p s t : string) :
  JS.includes (p ++ s ++ t)%string s = true.
Proof.
  induction p as [|c p IH]; simpl.
  - pose proof (prefix_app s t) as H.
    destruct (s ++ t)%string; simpl in H |- *; now rewrite H.
  - rewrite IH. apply orb_true_r.
Qed.

Lemma satNameOf_unknown (alert : Alert.t) (st : State) :
  (forall s, In s (satellites st) -> Satellite.id s <> Alert.satelliteId alert) ->
  satNameOf st alert = "Unknown Satellite".
Proof.
  intros H. unfold satNameOf.
  destruct (find _ (satellites st)) as [s|] eqn:E; [|reflexivity].
  apply find_some in E. destruct E as [Hin Heq].
  apply Z.eqb_eq in Heq. now apply H in Hin.
Qed.

(** C8: executing a pending alert whose [satelliteId] is the identifier of
    no satellite of the registry appends one log entry, which names
    "Unknown Satellite" where the satellite's name would stand. *)
Theorem executeAction_unknown_satellite (alert : Alert.t) (st : State) :
  Alert.executed alert = false ->
  (forall s, In s (satellites st) -> Satellite.id s <> Alert.satelliteId alert) ->
  executedActions (executeAction alert st)
  = executedActions st
    ++ [("✅ Action executed for Unknown Satellite: " ++ Alert.action alert)%string]
  /\ JS.includes (logEntry (satNameOf st alert) (Alert.action alert))
                 "Unknown Satellite" = true.
Proof.
  intros Hx Hno. rewrite executeAction_log by assumption.
  rewrite satNameOf_unknown by assumption. split.
  - reflexivity.
  - unfold logEntry. apply includes_app.
Qed.

Lemma executeAction_unknown_satellite_witness :
  executedActions (executeAction issCme (mkState [] [issCme] [] "" "" "" []))
  = ["✅ Action executed for Unknown Satellite: Switch off non-critical electronics and shield instruments"].
Proof.
  apply (executeAction_unknown_satellite issCme (mkState [] [issCme] [] "" "" "" [])).
  - reflexivity.
  - simpl. intros s [].
Defined.

(** ** Adding a satellite *)

Lemma falsy_false (s : string) : s <> "" -> JS.falsy s = false.
Proof. destruct s; [contradiction|reflexivity]. Qed.

Lemma falsy_true (s : string) : JS.falsy s = true <-> s = "".
Proof. destruct s; simpl; split; intro; (reflexivity || discriminate). Qed.

Lemma addSatellite_accepted (now : Z) (st : State) :
  name st <> "" -> altitude st <> "" -> inclination st <> "" ->
  addSatellite now st
  = let newSat := Satellite.mk now (name st) (JS.parseFloat (altitude st))
                               (JS.parseFloat (inclination st)) in
    mkState (satellites st ++ [newSat]) (alerts st) (executedActions st)
            "" "" "" (timers st ++ [(now + 10000, newSat)]).
Proof.
  intros Hn Ha Hi. unfold addSatellite.
  now rewrite !falsy_false by assumption.
Qed.

(** C6: with three non-empty fields, the registry grows by one record, put
    last, that carries the name as typed and the floating-point parse of
    the two numeric texts; and one delayed task is set, for that record. *)
Theorem addSatellite_appends (now : Z) (st : State) :
  name st <> "" -> altitude st <> "" -> inclination st <> "" ->
  let newSat := Satellite.mk now (name st) (JS.parseFloat (altitude st))
                             (JS.parseFloat (inclination st)) in
  satellites (addSatellite now st) = satellites st ++ [newSat]
  /\ List.length (satellites (addSatellite now st))
     = S (List.length (satellites st))
  /\ timers (addSatellite now st) = timers st ++ [(now + 10000, newSat)].
Proof.
  intros Hn Ha Hi newSat.
  rewrite addSatellite_accepted by assumption. simpl.
  repeat split. rewrite length_app. simpl. lia.
Qed.

Lemma addSatellite_appends_witness :
  satellites (addSatellite 1700000000000 issForm)
  = [Satellite.mk 1700000000000 "ISS" (JS.parseFloat "400") (JS.parseFloat "51.6")]
  /\ List.length (satellites (addSatellite 1700000000000 issForm)) = 1%nat
  /\ timers (addSatellite 1700000000000 issForm) = [(1700000010000, iss)].
Proof.
  apply (addSatellite_appends 1700000000000 issForm); simpl; discriminate.
Defined.

(** The two numeric texts of that form, as binary64 values. *)
Example parseFloat_400 : JS.parseFloat "400" = JS.ofZ 400.
Proof. vm_compute. reflexivity. Qed.

Example parseFloat_51_6 :
  JS.parseFloat "51.6" = S754_finite false 7262054399134925 (-47).
Proof. vm_compute. reflexivity. Qed.

Example parseFloat_negative : JS.parseFloat "-5" = SFopp (JS.ofZ 5).
Proof. vm_compute. reflexivity. Qed.

(** A form is turned down exactly when one of its three fields is empty,
    and then nothing changes at all. *)
Lemma addSatellite_rejects_iff_empty (now : Z) (st : State) :
  addSatellite now st = st
  <-> (name st = "" \/ altitude st = "" \/ inclination st = "").
Proof.
  split.
  - intros H.
    destruct (string_dec (name st) "") as [|Hn]; [now left|].
    destruct (string_dec (altitude st) "") as [|Ha]; [now right; left|].
    destruct (string_dec (inclination st) "") as [|Hi]; [now right; right|].
    exfalso.
    apply (f_equal (fun s => List.length (satellites s))) in H.
    rewrite addSatellite_accepted in H by assumption.
    simpl in H. rewrite length_app in H. simpl in H. lia.
  - intros H. unfold addSatellite.
    replace (JS.falsy (name st) || JS.falsy (altitude st)
             || JS.falsy (inclination st)) with true; [reflexivity|].
    symmetry. rewrite !orb_true_iff, !falsy_true. tauto.
Qed.

(** A negative altitude is taken as it is. *)
Example addSatellite_accepts_negative :
  satellites (addSatellite 1700000000000
                (setInclination "-200" (setAltitude "-5" (setName "X" initial))))
  = [Satellite.mk 1700000000000 "X" (SFopp (JS.ofZ 5)) (SFopp (JS.ofZ 200))].
Proof. vm_compute. reflexivity. Qed.

(** ** Identifiers *)

(** C9 fails on the code: ten seconds after one satellite was added, the
    task builds the space-weather alert and the conjunction alert within
    one millisecond, the simulator's second draw is 0.0005, and the two
    alerts, which differ, get the same identifier. *)
Theorem alert_ids_collide :
  reachable collisionState
  /\ alerts collisionState = [issCme; issConjunction]
  /\ issCme <> issConjunction
  /\ Alert.id issCme = Alert.id issConjunction.
Proof.
  split; [exact collisionState_reachable|].
  split; [reflexivity|].
  split; [discriminate|].
  vm_compute. reflexivity.
Qed.

(** Satellites take [Date.now()] alone: two forms submitted within one
    millisecond give two records with one identifier. *)
Example satellite_ids_collide :
  map Satellite.id
      (satellites
         (addSatellite 1700000000000
            (setInclination "97.4" (setAltitude "550" (setName "Hubble"
               (addSatellite 1700000000000 issForm))))))
  = [1700000000000; 1700000000000].
Proof. reflexivity. Qed.

(** C1 fails on the code, in the state that run ends in: the
    space-weather alert is listed and pending, and executing it once
    empties a collection of two alerts, the conjunction alert being dropped
    with it. *)
Theorem executeAction_drops_alert_sharing_id :
  reachable collisionState
  /\ In issCme (alerts collisionState)
  /\ Alert.executed issCme = false
  /\ List.length (alerts collisionState) = 2%nat
  /\ alerts (executeAction issCme collisionState) = []
  /\ executedActions (executeAction issCme collisionState)
     = ["✅ Action executed for ISS: Switch off non-critical electronics and shield instruments"].
Proof.
  split; [exact collisionState_reachable|].
  split; [now left|].
  repeat split.
Qed.

(** ** Executing twice *)

Lemma filter_idem {A} (p : A -> bool) (l : list A) :
  filter p (filter p l) = filter p l.
Proof.
  induction l as [|x l IH]; simpl; [reflexivity|].
  destruct (p x) eqn:E; simpl; [rewrite E|]; now rewrite IH.
Qed.

(** A second execution of the same pending alert leaves the active alerts
    as the first one left them, and logs the same entry again. *)
Lemma executeAction_twice (alert : Alert.t) (st : State) :
  Alert.executed alert = false ->
  alerts (executeAction alert (executeAction alert st))
  = alerts (executeAction alert st)
  /\ executedActions (executeAction alert (executeAction alert st))
     = executedActions (executeAction alert st)
       ++ [logEntry (satNameOf st alert) (Alert.action alert)].
Proof.
  intros H. split.
  - rewrite !executeAction_alerts by assumption. apply filter_idem.
  - rewrite (executeAction_log alert (executeAction alert st)) by assumption.
    unfold satNameOf. now rewrite executeAction_satellites.
Qed.

(** C2 fails on the code: in a reachable state with one alert, a second
    call with the same alert value, whose [executed] field the first call
    did not set, is no no-op: the log gets a second entry. *)
Theorem executeAction_twice_logs_twice :
  reachable cmeOnlyState
  /\ alerts cmeOnlyState = [issCme]
  /\ executedActions (executeAction issCme cmeOnlyState)
     = ["✅ Action executed for ISS: Switch off non-critical electronics and shield instruments"]
  /\ executedActions (executeAction issCme (executeAction issCme cmeOnlyState))
     = ["✅ Action executed for ISS: Switch off non-critical electronics and shield instruments";
        "✅ Action executed for ISS: Switch off non-critical electronics and shield instruments"]
  /\ executeAction issCme (executeAction issCme cmeOnlyState)
     <> executeAction issCme cmeOnlyState.
Proof.
  split; [exact cmeOnlyState_reachable|].
  repeat split. discriminate.
Qed.

(** ** The conjunction check *)

Lemma digits2_pos_bounds (m : positive) :
  2 ^ (Zpos (digits2_pos m) - 1) <= Zpos m < 2 ^ Zpos (digits2_pos m).
Proof.
  induction m as [m IH|m IH|]; simpl digits2_pos.
  - rewrite Pos2Z.inj_succ.
    replace (Z.succ (Zpos (digits2_pos m)) - 1) with (Z.succ (Zpos (digits2_pos m) - 1)) by lia.
    rewrite !Z.pow_succ_r by lia. lia.
  - rewrite Pos2Z.inj_succ.
    replace (Z.succ (Zpos (digits2_pos m)) - 1) with (Z.succ (Zpos (digits2_pos m) - 1)) by lia.
    rewrite !Z.pow_succ_r by lia. lia.
  - simpl. lia.
Qed.

Lemma literal_0_4 :
  JS.ofDecimal false 4 (-1) = S754_finite false 7205759403792794 (-54).
Proof. vm_compute. reflexivity. Qed.

(** A bounded mantissa has at most 53 bits, and exactly 53 above the
    least exponent. *)
Lemma bounded_digits (m : positive) (e : Z) :
  bounded JS.prec JS.emax m e = true ->
  Zpos m < 2 ^ 53 /\ (-1074 < e -> 2 ^ 52 <= Zpos m).
Proof.
  unfold bounded, canonical_mantissa, fexp, emin, JS.prec, JS.emax.
  intros H. apply andb_true_iff in H. destruct H as [H _].
  apply Z.eqb_eq in H.
  pose proof (digits2_pos_bounds m) as [Hlo Hhi].
  set (d := Zpos (digits2_pos m)) in *.
  assert (Hd : d <= 53) by lia.
  split.
  - apply Z.lt_le_trans with (2 ^ d); [assumption|].
    apply Z.pow_le_mono_r; lia.
  - intros He. assert (d = 53) as -> by lia. exact Hlo.
Qed.


Lemma ltb_0_4 (x : JS.number) :
  match x with
  | S754_zero false => True
  | S754_finite false m e => bounded JS.prec JS.emax m e = true
  | _ => False
  end ->
  JS.ltb x (JS.ofDecimal false 4 (-1)) = JS.belowFraction x 4 10.
Proof.
  rewrite literal_0_4.
  destruct x as [[|]|s| |[|] m e]; try contradiction; [reflexivity|].
  intros Hb. apply bounded_digits in Hb. destruct Hb as [Hhi Hlo].
  unfold JS.ltb, SFltb, SFcompare, JS.belowFraction.
  destruct (Z.compare_spec e (-54)) as [-> | Hlt | Hgt].
  - rewrite Pos.compare_cont_spec. simpl Pos.switch_Eq.
    change (0 <=? -54) with false. cbv iota.
    change (- -54) with 54.
    destruct (Pos.compare_spec m 7205759403792794) as [-> | H | H];
      symmetry.
    + reflexivity.
    + apply Z.ltb_lt. apply Pos2Z.pos_lt_pos in H. lia.
    + apply Z.ltb_ge. apply Pos2Z.pos_lt_pos in H. lia.
  - replace (0 <=? e) with false by (symmetry; apply Z.leb_gt; lia).
    symmetry. apply Z.ltb_lt.
    assert (2 ^ 55 <= 2 ^ (- e)) by (apply Z.pow_le_mono_r; lia).
    change (2 ^ 55) with 36028797018963968 in *.
    change (2 ^ 53) with 9007199254740992 in *. lia.
  - symmetry. destruct (Z.leb_spec 0 e) as [He | He].
    + apply Z.ltb_ge.
      assert (0 < 2 ^ e) by (apply Z.pow_pos_nonneg; lia).
      nia.
    + apply Z.ltb_ge.
      assert (2 ^ (- e) <= 2 ^ 53) by (apply Z.pow_le_mono_r; lia).
      specialize (Hlo ltac:(lia)).
      change (2 ^ 52) with 4503599627370496 in *.
      change (2 ^ 53) with 9007199254740992 in *. lia.
Qed.

Lemma isDraw_ltb_0_4 (x : JS.number) :
  isDraw x = true ->
  JS.ltb x (JS.ofDecimal false 4 (-1)) = JS.belowFraction x 4 10.
Proof.
  intros H. apply ltb_0_4.
  destruct x as [[|]|s| |[|] m e]; simpl in H; try discriminate; [exact I|].
  now apply andb_true_iff in H.
Qed.

(** C5, as amended: the check compares one draw with 0.4.  A draw whose
    value is below four tenths yields no alert; any other draw yields one
    alert, with the message "Conjunction alert: Possible collision with
    space debris!" and the action "Perform evasive maneuver or adjust
    orbit", the identifier of the satellite the task was set for, and
    [executed = false]; the task appends it after what the space-weather
    check produced. *)
Theorem conjunction_check (env : TaskEnv) (newSat : Satellite.t) (st : State) :
  isDraw (chance env) = true ->
  let produced :=
    if JS.belowFraction (chance env) 4 10 then None
    else Some (Alert.mk (nowConj env + JS.floor (JS.mul (draw env) (JS.ofZ 1000)))
                        (Satellite.id newSat)
                        "Conjunction alert: Possible collision with space debris!"
                        "Perform evasive maneuver or adjust orbit"
                        false) in
  simulateConjunctionAlert (chance env) (nowConj env) (draw env)
                           (Satellite.id newSat) = produced
  /\ exists cme,
       (List.length cme <= 1)%nat
       /\ alerts (hazardTask env newSat st) = alerts st ++ cme ++ optList produced.
Proof.
  intros Hd produced.
  assert (E : simulateConjunctionAlert (chance env) (nowConj env) (draw env)
                                       (Satellite.id newSat) = produced).
  { unfold simulateConjunctionAlert, produced.
    now rewrite isDraw_ltb_0_4 by assumption. }
  split; [exact E|].
  exists (optList (option_map (cmeAlertFor env newSat)
                              (hd_error (fetchCMEAlerts (feed env))))).
  split.
  - destruct (hd_error (fetchCMEAlerts (feed env))); simpl; lia.
  - now rewrite hazardTask_alerts, E.
Qed.

Lemma conjunction_check_witness :
  simulateConjunctionAlert (chance collisionEnv) (nowConj collisionEnv)
                           (draw collisionEnv) (Satellite.id iss)
  = Some issConjunction
  /\ simulateConjunctionAlert (chance quietEnv) (nowConj quietEnv)
                              (draw quietEnv) (Satellite.id iss)
     = None.
Proof.
  split.
  - apply (conjunction_check collisionEnv iss initial). vm_compute. reflexivity.
  - apply (conjunction_check quietEnv iss initial). vm_compute. reflexivity.
Defined.

(** C5, as stated, fails on the two texts: the alert the check produces for
    the draw 0.5 carries neither the message "possible collision with
    debris" nor the action "perform evasive maneuver or adjust orbit". *)
Lemma conjunction_alert_texts_differ :
  simulateConjunctionAlert (chance collisionEnv) (nowConj collisionEnv)
                           (draw collisionEnv) (Satellite.id iss)
  = Some issConjunction
  /\ Alert.message issConjunction <> "possible collision with debris"
  /\ Alert.action issConjunction <> "perform evasive maneuver or adjust orbit".
Proof.
  split; [vm_compute; reflexivity|].
  split; discriminate.
Qed.

(** ** The space-weather check *)

Lemma filterE_usable (advs : list advisory) :
  ~ In NoMessage advs -> filterE isCME advs = Some (filter cmeb advs).
Proof.
  induction advs as [|a advs IH]; [reflexivity|].
  intros H. cbn [filterE filter].
  rewrite IH by (intros Hin; apply H; now right).
  destruct a as [m|elems|]; [| |exfalso; apply H; now left];
    unfold cmeb; cbn [isCME bind]; now destruct (_ : bool).
Qed.

Lemma mapE_usable (advs : list advisory) :
  ~ In NoMessage advs -> mapE messageOf advs = Some (map valueOf advs).
Proof.
  induction advs as [|a advs IH]; [reflexivity|].
  intros H. cbn [mapE map].
  rewrite IH by (intros Hin; apply H; now right).
  destruct a as [m|elems|]; [| |exfalso; apply H; now left]; reflexivity.
Qed.

Lemma filterE_malformed (advs : list advisory) :
  In NoMessage advs -> filterE isCME advs = None.
Proof.
  induction advs as [|a advs IH]; [contradiction|].
  intros [-> | H]; [reflexivity|].
  cbn [filterE]. destruct (isCME a); [|reflexivity].
  cbn [bind]. now rewrite IH.
Qed.

(** From an array whose elements all have a usable message, the messages
    of the matching elements come back, in feed order. *)
Lemma fetchCMEAlerts_usable (advs : list advisory) :
  ~ In NoMessage advs ->
  fetchCMEAlerts (Data advs) = map valueOf (filter cmeb advs).
Proof.
  intros H. unfold fetchCMEAlerts. cbn [bind].
  rewrite filterE_usable by assumption. cbn [bind].
  rewrite mapE_usable; [reflexivity|].
  intros Hin. apply filter_In in Hin. now apply H.
Qed.

Lemma usable_advisories (msgs : list string) : ~ In NoMessage (map Advisory msgs).
Proof.
  induction msgs as [|m msgs IH]; simpl; [tauto|].
  intros [H | H]; [discriminate | contradiction].
Qed.

Lemma fetchCMEAlerts_advisories (msgs : list string) :
  fetchCMEAlerts (Data (map Advisory msgs))
  = map JS.JString (filter (fun m => JS.includes m "Coronal Mass Ejection") msgs).
Proof.
  rewrite fetchCMEAlerts_usable by apply usable_advisories.
  induction msgs as [|m msgs IH]; [reflexivity|].
  cbn [map filter]. unfold cmeb at 1. cbn [isCME].
  destruct (JS.includes m "Coronal Mass Ejection"); cbn [map]; now rewrite IH.
Qed.

Lemma prefix_split (s t : string) :
  prefix s t = true -> exists q, t = (s ++ q)%string.
Proof.
  revert t. induction s as [|c s IH]; intros t H.
  - now exists t.
  - destruct t as [|d t]; simpl in H; [discriminate|].
    destruct (ascii_dec c d) as [->|]; [|discriminate].
    destruct (IH t H) as [q ->]. now exists q.
Qed.

(** [includes] finds the sub-string wherever it starts. *)
Lemma includes_split (s sub : string) :
  JS.includes s sub = true -> exists p q, s = (p ++ sub ++ q)%string.
Proof.
  induction s as [|c s IH]; simpl; intros H.
  - destruct sub; [now exists ""%string, ""%string | discriminate].
  - apply orb_true_iff in H. destruct H as [H | H].
    + change (prefix sub (String c s) = true) in H.
      apply prefix_split in H. destruct H as [q ->]. now exists ""%string, q.
    + destruct (IH H) as (p & q & ->). now exists (String c p), q.
Qed.

(** The search the check makes is for what [mentionsCME] says. *)
Lemma cmeb_mentions (a : advisory) : cmeb a = true <-> mentionsCME a.
Proof.
  destruct a as [m|elems|]; unfold cmeb; cbn [isCME mentionsCME].
  - split; [apply includes_split|].
    intros (p & q & ->). apply includes_app.
  - rewrite existsb_exists. split.
    + intros (v & Hin & Hv). destruct v; try discriminate.
      cbn [isText] in Hv. apply String.eqb_eq in Hv. now subst.
    + intros H. exists (JS.JString "Coronal Mass Ejection"). split; [assumption|].
      reflexivity.
  - split; [discriminate | contradiction].
Qed.

Lemma filter_none {A} (p : A -> bool) (l : list A) :
  (forall x, In x l -> p x = false) -> filter p l = [].
Proof.
  induction l as [|x l IH]; [reflexivity|].
  intros H. simpl. rewrite (H x) by now left.
  apply IH. intros y Hy. apply H. now right.
Qed.

Lemma not_mentions_cmeb (l : list advisory) :
  (forall a, In a l -> ~ mentionsCME a) -> forall a, In a l -> cmeb a = false.
Proof.
  intros H a Ha. destruct (cmeb a) eqn:E; [|reflexivity].
  apply cmeb_mentions in E. now apply H in E.
Qed.

(** The first message the component keeps is the outcome of the feed. *)
Lemma fetchCMEAlerts_outcome (r : response) (o : option JS.json) :
  feedOutcome r o -> hd_error (fetchCMEAlerts r) = o.
Proof.
  intros [| |advs H|advs Hu H|pre a m post Hu Hpre Ha Hm].
  - reflexivity.
  - reflexivity.
  - unfold fetchCMEAlerts. cbn [bind]. now rewrite filterE_malformed.
  - rewrite fetchCMEAlerts_usable by assumption.
    now rewrite filter_none by (now apply not_mentions_cmeb).
  - rewrite fetchCMEAlerts_usable by assumption.
    rewrite filter_app, filter_none by (now apply not_mentions_cmeb).
    apply cmeb_mentions in Ha. cbn [filter app]. rewrite Ha. cbn [map hd_error].
    unfold valueOf. now rewrite Hm.
Qed.

(** Every answer of the feed has an outcome. *)
Lemma feedOutcome_total (r : response) : exists o, feedOutcome r o.
Proof.
  destruct r as [| |advs].
  - eexists. constructor.
  - eexists. constructor.
  - assert (Hdec : In NoMessage advs \/ ~ In NoMessage advs).
    { induction advs as [|a advs [IH | IH]].
      - right. intros [].
      - left. now right.
      - destruct a as [m|elems|]; [right|right|left; now left];
          intros [H | H]; (discriminate || contradiction). }
    destruct Hdec as [Hin | Hu].
    + eexists. now apply Feed_malformed.
    + assert (H : (forall a, In a advs -> ~ mentionsCME a)
                  \/ exists pre a post,
                       advs = pre ++ a :: post
                       /\ (forall x, In x pre -> ~ mentionsCME x)
                       /\ mentionsCME a).
      { clear Hu. induction advs as [|a advs IH].
        - left. intros a [].
        - destruct (cmeb a) eqn:E.
          + right. exists [], a, advs.
            repeat split; [intros x [] | now apply cmeb_mentions].
          + assert (Ha : ~ mentionsCME a)
              by (intros Hm; apply cmeb_mentions in Hm; congruence).
            destruct IH as [IH | (pre & b & post & -> & Hpre & Hb)].
            * left. intros x [<- | Hx]; auto.
            * right. exists (a :: pre), b, post.
              repeat split; [|assumption].
              intros x [<- | Hx]; auto. }
      destruct H as [H | (pre & a & post & -> & Hpre & Ha)].
      * eexists. now apply Feed_no_match.
      * destruct a as [m|elems|].
        -- exists (Some (JS.JString m)).
           now apply (Feed_first_match pre (Advisory m) _ post).
        -- exists (Some (JS.JArray elems)).
           now apply (Feed_first_match pre (ArrayMessage elems) _ post).
        -- contradiction.
Qed.

(** C4, as amended: when the feed answers an array whose elements all
    have a message that is a string or an array, and some element is about
    a coronal mass ejection, the task appends one alert with the message of
    the first such element, the action "Switch off non-critical electronics
    and shield instruments", the identifier of the satellite the task was
    set for, and [executed = false]; when the request fails, the answer is
    no array, one element has no such message (whatever the other elements
    are) or no element matches, the check appends nothing; in all cases
    the task goes on to the conjunction check. *)
Theorem space_weather_check
    (env : TaskEnv) (newSat : Satellite.t) (st : State) (o : option JS.json) :
  feedOutcome (feed env) o ->
  alerts (hazardTask env newSat st)
  = alerts st
    ++ match o with
       | Some m =>
           [Alert.mk (nowCme env) (Satellite.id newSat) m
                     "Switch off non-critical electronics and shield instruments"
                     false]
       | None => []
       end
    ++ optList (simulateConjunctionAlert (chance env) (nowConj env) (draw env)
                                         (Satellite.id newSat)).
Proof.
  intros H. rewrite hazardTask_alerts.
  rewrite (fetchCMEAlerts_outcome _ _ H).
  now destruct o.
Qed.

Lemma space_weather_check_witness :
  feedOutcome (feed cmeOnlyEnv) (Some (JS.JString "Coronal Mass Ejection detected"))
  /\ alerts (hazardTask cmeOnlyEnv iss (mkState [iss] [] [] "" "" "" []))
     = [issCme]
  /\ feedOutcome (feed mixedEnv) None
  /\ alerts (hazardTask mixedEnv iss (mkState [iss] [] [] "" "" "" [])) = [].
Proof.
  assert (H1 : feedOutcome (feed cmeOnlyEnv)
                 (Some (JS.JString "Coronal Mass Ejection detected"))).
  { apply (Feed_first_match [] (Advisory "Coronal Mass Ejection detected") _ []).
    - simpl. intros [H | []]. discriminate.
    - intros x [].
    - now exists ""%string, " detected"%string.
    - reflexivity. }
  assert (H2 : feedOutcome (feed mixedEnv) None).
  { apply Feed_malformed. simpl. right. now left. }
  split; [exact H1|]. split.
  - apply (space_weather_check cmeOnlyEnv iss (mkState [iss] [] [] "" "" "" [])
                               _ H1).
  - split; [exact H2|].
    apply (space_weather_check mixedEnv iss (mkState [iss] [] [] "" "" "" [])
                               None H2).
Defined.

(** The messages kept are the matching ones, in feed order. *)
Example fetchCMEAlerts_feed_order :
  fetchCMEAlerts
    (Data [Advisory "Geomagnetic storm watch";
           Advisory "CCOR: Coronal Mass Ejection, first";
           Advisory "Solar flare";
           Advisory "Coronal Mass Ejection, second"])
  = [JS.JString "CCOR: Coronal Mass Ejection, first";
     JS.JString "Coronal Mass Ejection, second"].
Proof. reflexivity. Qed.

(** An array as message matches when the text is one of its elements, and
    is then the message of the alert. *)
Example fetchCMEAlerts_array_message :
  fetchCMEAlerts
    (responseOf
       (Some (JS.JArray
                [JS.JObject
                   [("message"%string,
                     JS.JArray [JS.JString "Coronal Mass Ejection"])]])))
  = [JS.JArray [JS.JString "Coronal Mass Ejection"]].
Proof. reflexivity. Qed.

(** C4, as stated, fails on the action text: the alert built from the
    advisory "Coronal Mass Ejection detected" does not carry the action
    "power down non-critical systems, shield instruments"; and it fails on
    a feed that holds this advisory next to an element without a message,
    from which no alert is built. *)
Lemma cme_alert_action_differs :
  alerts (hazardTask cmeOnlyEnv iss (mkState [iss] [] [] "" "" "" []))
  = [issCme]
  /\ Alert.action issCme
     <> "power down non-critical systems, shield instruments"
  /\ feed mixedEnv
     = Data [Advisory "Coronal Mass Ejection detected"; NoMessage]
  /\ alerts (hazardTask mixedEnv iss (mkState [iss] [] [] "" "" "" [])) = [].
Proof.
  split; [vm_compute; reflexivity|].
  split; [discriminate|].
  split; reflexivity.
Qed.

(** * Further properties of the code *)

(** ** What [fetchCMEAlerts] returns *)

Lemma usable_or_malformed (advs : list advisory) :
  In NoMessage advs \/ ~ In NoMessage advs.
Proof.
  induction advs as [|a advs [IH | IH]].
  - right. intros [].
  - left. now right.
  - destruct a as [m|elems|]; [right|right|left; now left];
      intros [H | H]; (discriminate || contradiction).
Qed.

(** X1: whatever the feed answers, each value [fetchCMEAlerts] returns is
    the message of an element of the answered array, and that message is a
    string with the text "Coronal Mass Ejection" in it or an array with that
    text as one of its elements. *)
Theorem fetchCMEAlerts_sound (r : response) (v : JS.json) :
  In v (fetchCMEAlerts r) ->
  exists advs a,
    r = Data advs /\ In a advs /\ messageOf a = Some v /\ mentionsCME a.
Proof.
  destruct r as [| |advs]; try contradiction.
  destruct (usable_or_malformed advs) as [H | H].
  - unfold fetchCMEAlerts. cbn [bind]. rewrite filterE_malformed by assumption.
    contradiction.
  - rewrite fetchCMEAlerts_usable by assumption.
    rewrite in_map_iff. intros (a & <- & Hin).
    apply filter_In in Hin. destruct Hin as [Hin Hc].
    exists advs, a. repeat split; try assumption.
    + unfold valueOf. destruct a as [m|elems|]; try reflexivity.
      now apply H in Hin.
    + now apply cmeb_mentions.
Qed.

Lemma fetchCMEAlerts_sound_witness :
  exists advs a,
    responseOf
      (Some (JS.JArray
               [JS.JObject [("message"%string, JS.JString "Solar flare")];
                JS.JObject
                  [("message"%string,
                    JS.JArray [JS.JNull; JS.JString "Coronal Mass Ejection"])]]))
    = Data advs
    /\ In a advs
    /\ messageOf a
       = Some (JS.JArray [JS.JNull; JS.JString "Coronal Mass Ejection"])
    /\ mentionsCME a.
Proof.
  apply (fetchCMEAlerts_sound
           (responseOf
              (Some (JS.JArray
                       [JS.JObject [("message"%string, JS.JString "Solar flare")];
                        JS.JObject
                          [("message"%string,
                            JS.JArray [JS.JNull;
                                       JS.JString "Coronal Mass Ejection"])]])))
           (JS.JArray [JS.JNull; JS.JString "Coronal Mass Ejection"])).
  simpl. now left.
Defined.

(** X2: one element without a usable message voids the whole answer: the
    exception it raises is caught around the whole filter, and nothing is
    returned, whatever the other advisories say. *)
Theorem fetchCMEAlerts_malformed_element (advs : list advisory) :
  In NoMessage advs -> fetchCMEAlerts (Data advs) = [].
Proof.
  intros H. unfold fetchCMEAlerts. cbn [bind].
  now rewrite filterE_malformed.
Qed.

Lemma fetchCMEAlerts_malformed_element_witness :
  fetchCMEAlerts
    (Data [Advisory "Coronal Mass Ejection detected"; NoMessage;
           Advisory "Coronal Mass Ejection again"]) = [].
Proof.
  apply (fetchCMEAlerts_malformed_element
           [Advisory "Coronal Mass Ejection detected"; NoMessage;
            Advisory "Coronal Mass Ejection again"]).
  simpl. right. now left.
Defined.

(** X3: from an array of advisories that all carry a message, exactly the
    messages with "Coronal Mass Ejection" in them come back, in feed order
    and with repetitions. *)
Theorem fetchCMEAlerts_keeps_feed_order (msgs : list string) :
  fetchCMEAlerts (Data (map Advisory msgs))
  = map JS.JString
        (filter (fun m => JS.includes m "Coronal Mass Ejection") msgs).
Proof.
  rewrite fetchCMEAlerts_usable by apply usable_advisories.
  induction msgs as [|m msgs IH]; [reflexivity|].
  cbn [map filter]. unfold cmeb at 1. cbn [isCME].
  destruct (JS.includes m "Coronal Mass Ejection"); cbn [map]; now rewrite IH.
Qed.

(** ** What the hazard-evaluation task adds *)

(** X4: one run of the task keeps the alerts there are, in place, and puts
    after them at most one space-weather alert followed by at most one
    conjunction alert, each pending and for the satellite the task was set
    for; registry, log, form inputs and timers are left alone. *)
Theorem hazardTask_appends_at_most_two
    (env : TaskEnv) (newSat : Satellite.t) (st : State) :
  exists cme conj,
    alerts (hazardTask env newSat st) = alerts st ++ cme ++ conj
    /\ (List.length cme <= 1)%nat /\ (List.length conj <= 1)%nat
    /\ Forall (fun a => Alert.satelliteId a = Satellite.id newSat
                        /\ Alert.executed a = false
                        /\ Alert.id a = nowCme env) cme
    /\ Forall (fun a => Alert.satelliteId a = Satellite.id newSat
                        /\ Alert.executed a = false
                        /\ Alert.id a = nowConj env
                                        + JS.floor (JS.mul (draw env) (JS.ofZ 1000)))
              conj
    /\ satellites (hazardTask env newSat st) = satellites st
    /\ executedActions (hazardTask env newSat st) = executedActions st
    /\ timers (hazardTask env newSat st) = timers st
    /\ name (hazardTask env newSat st) = name st
    /\ altitude (hazardTask env newSat st) = altitude st
    /\ inclination (hazardTask env newSat st) = inclination st.
Proof.
  exists (optList (option_map (cmeAlertFor env newSat)
                              (hd_error (fetchCMEAlerts (feed env))))),
         (optList (simulateConjunctionAlert (chance env) (nowConj env) (draw env)
                                            (Satellite.id newSat))).
  split; [apply hazardTask_alerts|].
  split; [destruct (hd_error _); simpl; lia|].
  split; [destruct (simulateConjunctionAlert _ _ _ _); simpl; lia|].
  split; [destruct (hd_error _); simpl; repeat constructor|].
  split.
  - unfold simulateConjunctionAlert.
    destruct (JS.ltb _ _); simpl; repeat constructor.
  - unfold hazardTask.
    destruct (fetchCMEAlerts (feed env));
      destruct (simulateConjunctionAlert _ _ _ _); simpl; repeat split.
Qed.

(** ** Pressing "Add Satellite" *)

Lemma addSatellite_cases (now : Z) (st : State) :
  addSatellite now st = st
  \/ (name st <> "" /\ altitude st <> "" /\ inclination st <> ""
      /\ addSatellite now st
         = let newSat := Satellite.mk now (name st) (JS.parseFloat (altitude st))
                                      (JS.parseFloat (inclination st)) in
           mkState (satellites st ++ [newSat]) (alerts st) (executedActions st)
                   "" "" "" (timers st ++ [(now + 10000, newSat)])).
Proof.
  destruct (string_dec (name st) "") as [Hn|Hn];
    [left; unfold addSatellite; now rewrite Hn|].
  destruct (string_dec (altitude st) "") as [Ha|Ha];
    [left; unfold addSatellite; rewrite Ha; simpl; now rewrite orb_true_r|].
  destruct (string_dec (inclination st) "") as [Hi|Hi];
    [left; unfold addSatellite; rewrite Hi; simpl; now rewrite orb_true_r|].
  right. repeat split; try assumption. now apply addSatellite_accepted.
Qed.

(** X5: a second press without typing anything in between adds nothing: an
    accepted form leaves the three inputs empty, and a turned-down form
    leaves them as they were. *)
Theorem addSatellite_second_press (now now' : Z) (st : State) :
  addSatellite now' (addSatellite now st) = addSatellite now st.
Proof.
  destruct (addSatellite_cases now st) as [E | (_ & _ & _ & E)].
  - rewrite E.
    destruct (addSatellite_cases now' st) as [E' | (Hn & Ha & Hi & _)];
      [exact E'|].
    exfalso. unfold addSatellite in E.
    rewrite !falsy_false in E by assumption. simpl in E.
    apply (f_equal (fun s => List.length (satellites s))) in E.
    simpl in E. rewrite length_app in E. simpl in E. lia.
  - rewrite E. reflexivity.
Qed.

(** X6: a press touches neither the alerts nor the log; it keeps the
    registry and the pending timers and puts at most one record at the end
    of the registry, and exactly as many timers as records, each for the
    record it was added with and due 10000 ms after [now]. *)
Theorem addSatellite_frame (now : Z) (st : State) :
  alerts (addSatellite now st) = alerts st
  /\ executedActions (addSatellite now st) = executedActions st
  /\ exists added,
       (List.length added <= 1)%nat
       /\ satellites (addSatellite now st) = satellites st ++ added
       /\ timers (addSatellite now st)
          = timers st ++ map (fun s => (now + 10000, s)) added
       /\ Forall (fun s => Satellite.id s = now /\ Satellite.name s = name st
                           /\ Satellite.name s <> "") added.
Proof.
  destruct (addSatellite_cases now st) as [E | (Hn & Ha & Hi & E)]; rewrite E.
  - repeat split. exists []. simpl. rewrite !app_nil_r. repeat split; auto.
  - simpl. repeat split. eexists [_]. simpl. repeat split; auto.
Qed.

(** ** More on executing alerts *)

Lemma satNameOf_executeAction (other alert : Alert.t) (st : State) :
  satNameOf (executeAction other st) alert = satNameOf st alert.
Proof.
  unfold satNameOf. now rewrite executeAction_satellites.
Qed.

Lemma filter_comm {A} (p q : A -> bool) (l : list A) :
  filter p (filter q l) = filter q (filter p l).
Proof.
  induction l as [|x l IH]; simpl; [reflexivity|].
  destruct (p x) eqn:Ep, (q x) eqn:Eq; simpl;
    rewrite ?Ep, ?Eq, IH; reflexivity.
Qed.

(** X7: two pending alerts can be executed in either order: the active
    alerts left are the same, and the log holds the same two entries, in the
    order of execution. *)
Theorem executeAction_commute (a b : Alert.t) (st : State) :
  Alert.executed a = false -> Alert.executed b = false ->
  alerts (executeAction a (executeAction b st))
  = alerts (executeAction b (executeAction a st))
  /\ executedActions (executeAction a (executeAction b st))
     = executedActions st
       ++ [logEntry (satNameOf st b) (Alert.action b);
           logEntry (satNameOf st a) (Alert.action a)]
  /\ executedActions (executeAction b (executeAction a st))
     = executedActions st
       ++ [logEntry (satNameOf st a) (Alert.action a);
           logEntry (satNameOf st b) (Alert.action b)].
Proof.
  intros Ha Hb. split; [|split].
  - rewrite !executeAction_alerts by assumption. apply filter_comm.
  - rewrite !executeAction_log by assumption.
    rewrite satNameOf_executeAction, <- app_assoc. reflexivity.
  - rewrite !executeAction_log by assumption.
    rewrite satNameOf_executeAction, <- app_assoc. reflexivity.
Qed.

Lemma executeAction_commute_witness :
  alerts (executeAction issCme (executeAction issConjunction collisionState))
  = alerts (executeAction issConjunction (executeAction issCme collisionState))
  /\ executedActions
       (executeAction issCme (executeAction issConjunction collisionState))
     = ["✅ Action executed for ISS: Perform evasive maneuver or adjust orbit";
        "✅ Action executed for ISS: Switch off non-critical electronics and shield instruments"]
  /\ executedActions
       (executeAction issConjunction (executeAction issCme collisionState))
     = ["✅ Action executed for ISS: Switch off non-critical electronics and shield instruments";
        "✅ Action executed for ISS: Perform evasive maneuver or adjust orbit"].
Proof.
  apply (executeAction_commute issCme issConjunction collisionState);
    reflexivity.
Defined.

(** X8: when no other active alert carries its identifier, executing a
    listed pending alert logs one entry, with the satellite's name and the
    alert's action, takes exactly one alert off the list, and that alert is
    no longer listed. *)
Theorem executeAction_removes_exactly_one (alert : Alert.t) (st : State) :
  Alert.executed alert = false ->
  In alert (alerts st) ->
  countId (Alert.id alert) (alerts st) = 1%nat ->
  executedActions (executeAction alert st)
  = executedActions st
    ++ [("✅ Action executed for " ++ satNameOf st alert ++ ": "
         ++ Alert.action alert)%string]
  /\ S (List.length (alerts (executeAction alert st))) = List.length (alerts st)
  /\ ~ In alert (alerts (executeAction alert st)).
Proof.
  intros Hx Hin Hc. split; [|split].
  - now apply executeAction_log.
  - pose proof (executeAction_length alert st Hx). lia.
  - rewrite executeAction_alerts by assumption.
    rewrite filter_In. intros [_ Hn].
    now rewrite Z.eqb_refl in Hn.
Qed.

Lemma executeAction_removes_exactly_one_witness :
  executedActions (executeAction issCme cmeOnlyState)
  = ["✅ Action executed for ISS: Switch off non-critical electronics and shield instruments"]
  /\ S (List.length (alerts (executeAction issCme cmeOnlyState))) = 1%nat
  /\ ~ In issCme (alerts (executeAction issCme cmeOnlyState)).
Proof.
  apply (executeAction_removes_exactly_one issCme cmeOnlyState).
  - reflexivity.
  - simpl. now left.
  - reflexivity.
Defined.

(** X9: a second call with the same pending alert leaves the active alerts
    as the first call left them and appends the same log entry once more:
    the call does not see that the alert was executed before. *)
Theorem executeAction_again (alert : Alert.t) (st : State) :
  Alert.executed alert = false ->
  alerts (executeAction alert (executeAction alert st))
  = alerts (executeAction alert st)
  /\ executedActions (executeAction alert (executeAction alert st))
     = executedActions st
       ++ [logEntry (satNameOf st alert) (Alert.action alert);
           logEntry (satNameOf st alert) (Alert.action alert)].
Proof.
  intros H. split.
  - rewrite !executeAction_alerts by assumption. apply filter_idem.
  - rewrite !executeAction_log by assumption.
    rewrite satNameOf_executeAction, <- app_assoc. reflexivity.
Qed.

Lemma executeAction_again_witness :
  alerts (executeAction issCme (executeAction issCme cmeOnlyState))
  = alerts (executeAction issCme cmeOnlyState)
  /\ executedActions (executeAction issCme (executeAction issCme cmeOnlyState))
     = [logEntry "ISS" (Alert.action issCme); logEntry "ISS" (Alert.action issCme)].
Proof.
  apply (executeAction_again issCme cmeOnlyState). reflexivity.
Defined.

(** X10: [executeAction] does not look whether the alert is listed: for a
    pending alert whose identifier no active alert carries, the active
    alerts stay as they are and a log entry is appended all the same. *)
Theorem executeAction_unlisted (alert : Alert.t) (st : State) :
  Alert.executed alert = false ->
  (forall a, In a (alerts st) -> Alert.id a <> Alert.id alert) ->
  alerts (executeAction alert st) = alerts st
  /\ executedActions (executeAction alert st)
     = executedActions st
       ++ [logEntry (satNameOf st alert) (Alert.action alert)].
Proof.
  intros Hx Hno. split; [|now apply executeAction_log].
  rewrite executeAction_alerts by assumption.
  apply forallb_filter_id, forallb_forall.
  intros a Ha. apply negb_true_iff, Z.eqb_neq. now apply Hno.
Qed.

Lemma executeAction_unlisted_witness :
  alerts (executeAction issCme initial) = []
  /\ executedActions (executeAction issCme initial)
     = ["✅ Action executed for Unknown Satellite: Switch off non-critical electronics and shield instruments"].
Proof.
  apply (executeAction_unlisted issCme initial).
  - reflexivity.
  - intros a [].
Defined.

(** ** Runs of the component *)

Lemma ofZ_1000 : JS.ofZ 1000 = S754_finite false 8796093022208000 (-43).
Proof. vm_compute. reflexivity. Qed.

Lemma floor_finite_nonneg (m : positive) (e : Z) :
  0 <= JS.floor (S754_finite false m e).
Proof.
  unfold JS.floor. destruct (0 <=? e).
  - apply Z.shiftl_nonneg. lia.
  - apply Z.shiftr_nonneg. lia.
Qed.

(** The offset [Math.floor(Math.random() * 1000)] is never negative. *)
Lemma floor_draw_nonneg (x : JS.number) :
  isDraw x = true -> 0 <= JS.floor (JS.mul x (JS.ofZ 1000)).
Proof.
  rewrite ofZ_1000.
  destruct x as [[|]|s| |[|] m e]; simpl isDraw; try discriminate;
    try (intros _; vm_compute; discriminate).
  intros _. unfold JS.mul, SFmul, binary_round_aux.
  destruct (shr_fexp _ _ _ _ _) as [mrs e'].
  destruct (shr_fexp _ _ _ _ _) as [mrs' e''].
  destruct (shr_m mrs') as [|p|p]; try (simpl; lia).
  destruct (e'' <=? _); [apply floor_finite_nonneg | simpl; lia].
Qed.

Lemma dropped_timer {A} (k : nat) (l : list A) (x : A) :
  nth_error l k = Some x ->
  S (List.length (firstn k l ++ skipn (S k) l)) = List.length l
  /\ forall y, In y (firstn k l ++ skipn (S k) l) -> In y l.
Proof.
  revert l. induction k as [|k IH]; intros [|z l] H; try discriminate.
  - simpl. split; [reflexivity | auto].
  - simpl in H. destruct (IH l H) as [Hlen Hin].
    change (firstn (S k) (z :: l) ++ skipn (S (S k)) (z :: l))
      with (z :: (firstn k l ++ skipn (S k) l)).
    split; [simpl; now rewrite <- Hlen|].
    intros y [-> | Hy]; [now left | right; auto].
Qed.

Lemma linked_initial : linked initial.
Proof. repeat split; (constructor || (simpl; lia)). Qed.

Lemma linked_fields (st st' : State) :
  satellites st' = satellites st -> alerts st' = alerts st ->
  timers st' = timers st -> linked st -> linked st'.
Proof. unfold linked. now intros -> -> ->. Qed.

Lemma addSatellite_linked (now : Z) (st : State) :
  linked st -> linked (addSatellite now st).
Proof.
  intros H.
  destruct (addSatellite_cases now st) as [E | (Hn & _ & _ & E)]; rewrite E;
    [exact H|].
  destruct H as (Hs & Hd & Ha & Hl). unfold linked. simpl.
  split; [|split; [|split]].
  - apply Forall_app. split; [assumption|]. now repeat constructor.
  - apply Forall_app. split.
    + eapply Forall_impl; [|exact Hd]. simpl. intros d Hin.
      apply in_or_app. now left.
    + constructor; [|constructor]. simpl. apply in_or_app. right. now left.
  - eapply Forall_impl; [|exact Ha]. simpl. intros a (s & Hin & Hid).
    exists s. split; [apply in_or_app; now left | assumption].
  - rewrite !length_app. simpl. lia.
Qed.

Lemma hazardTask_linked
    (k : nat) (env : TaskEnv) (due : Z) (newSat : Satellite.t) (st : State) :
  nth_error (timers st) k = Some (due, newSat) ->
  linked st -> linked (hazardTask env newSat (dropTimer k st)).
Proof.
  intros Hk (Hs & Hd & Ha & Hl).
  destruct (hazardTask_frame env newSat (dropTimer k st)) as (Es & _ & Et).
  pose proof (hazardTask_alerts env newSat (dropTimer k st)) as Ea.
  destruct (dropped_timer k (timers st) (due, newSat) Hk) as [Hlen Hsub].
  assert (Hin : In newSat (satellites st)).
  { rewrite Forall_forall in Hd. apply (Hd (due, newSat)).
    eapply nth_error_In. exact Hk. }
  unfold linked. rewrite Es, Et, Ea. cbn [dropTimer satellites alerts timers].
  split; [assumption|]. split; [|split].
  - rewrite Forall_forall in *. intros d Hd'. apply Hd. now apply Hsub.
  - repeat (apply Forall_app; split); [assumption| |].
    + destruct (hd_error (fetchCMEAlerts (feed env))); simpl; constructor;
        [|constructor].
      now exists newSat.
    + unfold simulateConjunctionAlert. destruct (JS.ltb _ _); simpl; constructor;
        [|constructor].
      now exists newSat.
  - rewrite !length_app. rewrite length_app in Hlen.
    assert ((List.length (optList (option_map (cmeAlertFor env newSat)
                (hd_error (fetchCMEAlerts (feed env))))) <= 1)%nat)
      by (destruct (hd_error _); simpl; lia).
    assert ((List.length (optList (simulateConjunctionAlert (chance env)
                (nowConj env) (draw env) (Satellite.id newSat))) <= 1)%nat)
      by (destruct (simulateConjunctionAlert _ _ _ _); simpl; lia).
    lia.
Qed.

Lemma executeActionFrom_frame (rendered : State) (alert : Alert.t) (st : State) :
  satellites (executeActionFrom rendered alert st) = satellites st
  /\ timers (executeActionFrom rendered alert st) = timers st.
Proof.
  unfold executeActionFrom. now destruct (Alert.executed alert).
Qed.

Lemma executeActionFrom_linked (rendered : State) (alert : Alert.t) (st : State) :
  Alert.executed alert = false ->
  linked st -> linked (executeActionFrom rendered alert st).
Proof.
  intros E (Hs & Hd & Ha & Hl).
  pose proof (executeAction_length alert st E) as Hlen.
  destruct (executeActionFrom_frame rendered alert st) as [Es Et].
  unfold linked. rewrite Es, Et, executeActionFrom_alerts.
  rewrite executeAction_alerts in * by assumption.
  repeat split; try assumption; [|lia].
  rewrite Forall_forall in *. intros a Hin. apply Ha.
  now apply filter_In in Hin.
Qed.

Lemma perform_linked (a : action) (st st' : State) :
  perform a st = Some st' -> linked st -> linked st'.
Proof.
  destruct a; simpl.
  - intros [= <-]. now apply linked_fields.
  - intros [= <-]. now apply linked_fields.
  - intros [= <-]. now apply linked_fields.
  - intros [= <-]. apply addSatellite_linked.
  - destruct (nth_error (timers st) k) as [[due newSat]|] eqn:Hk; [|discriminate].
    intros [= <-]. now apply hazardTask_linked with due.
  - destruct (Alert.executed alert) eqn:E; [discriminate|].
    intros [= <-]. now apply executeActionFrom_linked.
Qed.

Lemma performAll_linked (l : list action) :
  forall st st', performAll l st = Some st' -> linked st -> linked st'.
Proof.
  induction l as [|a l IH]; simpl; intros st st'.
  - now intros [= <-].
  - destruct (perform a st) as [st1|] eqn:E; [|discriminate].
    intros Hrun Hst. eapply IH; [exact Hrun|].
    eapply perform_linked; eassumption.
Qed.

Lemma possible_linked (st : State) : possible st -> linked st.
Proof.
  intros (l & Hl). exact (performAll_linked l _ _ Hl linked_initial).
Qed.

Lemma possible_pending (st : State) : possible st -> allPending st.
Proof.
  intros (l & Hl). exact (performAll_pending l _ _ Hl allPending_initial).
Qed.

Lemma find_exists {A} (f : A -> bool) (l : list A) (x : A) :
  In x l -> f x = true -> exists y, find f l = Some y.
Proof.
  intros Hin Hf. destruct (find f l) as [y|] eqn:E; [now exists y|].
  rewrite (find_none f l E x Hin) in Hf. discriminate.
Qed.

(** X11: whatever the component did, the [satelliteId] of each active
    alert is the identifier of a registered satellite, and the first record
    with that identifier has a name: the list shows that name in front of
    the alert's message, the "Execute Action" button is rendered for the
    alert, and pressing the button of the current render logs that same
    name, never the fallback. *)
Theorem listed_alert_names_its_satellite (st : State) (a : Alert.t) :
  possible st -> In a (alerts st) ->
  exists s,
    find (fun s => Satellite.id s =? Alert.satelliteId a) (satellites st) = Some s
    /\ Satellite.name s <> ""
    /\ alertLabel st a = Some (Satellite.name s)
    /\ satNameOf st a = Satellite.name s
    /\ showsButton a = true.
Proof.
  intros Hp Hin.
  pose proof (possible_pending st Hp) as Hx.
  destruct (possible_linked st Hp) as (Hs & _ & Ha & _).
  unfold allPending in Hx. rewrite Forall_forall in Hs, Ha, Hx.
  destruct (Ha a Hin) as (s0 & Hin0 & Hid0).
  destruct (find_exists (fun s => Satellite.id s =? Alert.satelliteId a)
                        (satellites st) s0 Hin0) as [s Hfind];
    [now apply Z.eqb_eq|].
  destruct (find_some _ _ Hfind) as [Hins _].
  pose proof (Hs s Hins) as Hname.
  exists s. repeat split; try assumption.
  - unfold alertLabel. now rewrite Hfind.
  - unfold satNameOf. rewrite Hfind. now rewrite falsy_false.
  - unfold showsButton. now rewrite (Hx a Hin).
Qed.

Lemma listed_alert_names_its_satellite_witness :
  exists s,
    find (fun s => Satellite.id s =? Alert.satelliteId issConjunction)
         (satellites collisionState) = Some s
    /\ Satellite.name s <> ""
    /\ alertLabel collisionState issConjunction = Some (Satellite.name s)
    /\ satNameOf collisionState issConjunction = Satellite.name s
    /\ showsButton issConjunction = true.
Proof.
  apply (listed_alert_names_its_satellite collisionState issConjunction).
  - apply reachable_possible.
    exists 1699999990000, collisionTrace, 1700000010020.
    vm_compute. reflexivity.
  - simpl. right. now left.
Defined.

(** X12: whatever the component did, every record of the registry has a
    non-empty name. *)
Theorem registry_names_nonempty (st : State) :
  possible st -> Forall (fun s => Satellite.name s <> "") (satellites st).
Proof.
  intros Hp. now destruct (possible_linked st Hp) as (Hs & _).
Qed.

Lemma registry_names_nonempty_witness :
  Forall (fun s => Satellite.name s <> "") (satellites collisionState).
Proof.
  apply (registry_names_nonempty collisionState).
  apply reachable_possible.
  exists 1699999990000, collisionTrace, 1700000010020.
  vm_compute. reflexivity.
Defined.

(** What one action does to the registry, the log and the timers. *)
Lemma perform_effect (a : action) (st st' : State) :
  perform a st = Some st' ->
  (exists added, satellites st' = satellites st ++ added)
  /\ (exists logged,
        executedActions st' = executedActions st ++ logged
        /\ List.length logged = if isPress a then 1%nat else 0%nat)
  /\ (List.length (satellites st') + List.length (timers st)
      = List.length (satellites st) + List.length (timers st')
        + if isTask a then 1 else 0)%nat.
Proof.
  destruct a; simpl perform.
  - intros [= <-]. simpl.
    split; [exists []; now rewrite app_nil_r|].
    split; [exists []; now rewrite app_nil_r | lia].
  - intros [= <-]. simpl.
    split; [exists []; now rewrite app_nil_r|].
    split; [exists []; now rewrite app_nil_r | lia].
  - intros [= <-]. simpl.
    split; [exists []; now rewrite app_nil_r|].
    split; [exists []; now rewrite app_nil_r | lia].
  - intros [= <-].
    destruct (addSatellite_cases now st) as [E | (_ & _ & _ & E)]; rewrite E.
    + split; [exists []; now rewrite app_nil_r|].
      split; [exists []; now rewrite app_nil_r | simpl; lia].
    + simpl. split; [now eexists|].
      split; [exists []; now rewrite app_nil_r|].
      rewrite !length_app. simpl. lia.
  - destruct (nth_error (timers st) k) as [[due newSat]|] eqn:Hk; [|discriminate].
    intros [= <-].
    destruct (hazardTask_frame env newSat (dropTimer k st)) as (-> & -> & ->).
    destruct (dropped_timer k (timers st) (due, newSat) Hk) as [Hlen _].
    cbn [dropTimer satellites executedActions timers isPress isTask].
    split; [exists []; now rewrite app_nil_r|].
    split; [exists []; now rewrite app_nil_r | lia].
  - destruct (Alert.executed alert) eqn:E; [discriminate|].
    intros [= <-].
    destruct (executeActionFrom_frame rendered alert st) as [-> ->].
    split; [exists []; now rewrite app_nil_r|].
    split; [|simpl; lia].
    unfold executeActionFrom. rewrite E. simpl. now eexists.
Qed.

Lemma performAll_effect (l : list action) :
  forall st st',
    performAll l st = Some st' ->
    (exists added, satellites st' = satellites st ++ added)
    /\ (exists logged,
          executedActions st' = executedActions st ++ logged
          /\ List.length logged = List.length (filter isPress l))
    /\ (List.length (satellites st') + List.length (timers st)
        = List.length (satellites st) + List.length (timers st')
          + List.length (filter isTask l))%nat.
Proof.
  induction l as [|a l IH]; intros st st'; cbn [performAll].
  - intros [= <-]. simpl.
    split; [exists []; now rewrite app_nil_r|].
    split; [exists []; now rewrite app_nil_r | lia].
  - destruct (perform a st) as [st1|] eqn:E; [|discriminate].
    intros Hrun.
    destruct (perform_effect a st st1 E) as ((a1 & Ha1) & (l1 & Hl1 & Hn1) & Hq1).
    destruct (IH st1 st' Hrun) as ((a2 & Ha2) & (l2 & Hl2 & Hn2) & Hq2).
    split; [exists (a1 ++ a2); now rewrite Ha2, Ha1, app_assoc|].
    split.
    + exists (l1 ++ l2). split; [now rewrite Hl2, Hl1, app_assoc|].
      rewrite length_app, Hn1, Hn2. simpl. now destruct (isPress a).
    + simpl. destruct (isTask a); simpl in *; lia.
Qed.

(** X14: whatever the component does from any state on, the registry and
    the log only grow at their ends: what was registered stays registered,
    in place, and what was logged stays logged, in place. *)
Theorem registry_and_log_append_only
    (l : list action) (st st' : State) :
  performAll l st = Some st' ->
  (exists added, satellites st' = satellites st ++ added)
  /\ (exists logged, executedActions st' = executedActions st ++ logged).
Proof.
  intros Hrun.
  destruct (performAll_effect l st st' Hrun) as (Ha & (lg & Hl & _) & _).
  split; [assumption|]. now exists lg.
Qed.

(** From a state with one record and one log entry: a second form is
    submitted, and a button drawn before the first execution is pressed. *)
Lemma registry_and_log_append_only_witness :
  (exists added,
     satellites
       (executeActionFrom cmeOnlyState issCme
          (addSatellite 1700000020000
             (setInclination "28.5" (setAltitude "550" (setName "Hubble"
                (executeAction issCme cmeOnlyState))))))
     = satellites (executeAction issCme cmeOnlyState) ++ added)
  /\ (exists logged,
        executedActions
          (executeActionFrom cmeOnlyState issCme
             (addSatellite 1700000020000
                (setInclination "28.5" (setAltitude "550" (setName "Hubble"
                   (executeAction issCme cmeOnlyState))))))
        = executedActions (executeAction issCme cmeOnlyState) ++ logged).
Proof.
  apply (registry_and_log_append_only
           [SetName "Hubble"; SetAltitude "550"; SetInclination "28.5";
            Add 1700000020000; Press cmeOnlyState issCme]
           (executeAction issCme cmeOnlyState)).
  reflexivity.
Defined.

(** X15: the log grows by one entry for each press of an "Execute Action"
    button, of whatever render, and by nothing else. *)
Theorem log_counts_presses (l : list action) (st st' : State) :
  performAll l st = Some st' ->
  List.length (executedActions st')
  = (List.length (executedActions st) + List.length (filter isPress l))%nat.
Proof.
  intros Hrun.
  destruct (performAll_effect l st st' Hrun) as (_ & (lg & Hl & Hn) & _).
  rewrite Hl, length_app. lia.
Qed.

Lemma log_counts_presses_witness :
  List.length
    (executedActions
       (executeActionFrom collisionState issCme
          (executeAction issCme collisionState)))
  = (List.length (executedActions collisionState)
     + List.length (filter isPress [Press collisionState issCme;
                                    Press collisionState issCme]))%nat.
Proof.
  apply (log_counts_presses [Press collisionState issCme;
                             Press collisionState issCme]
                            collisionState).
  reflexivity.
Defined.

(** X16: each accepted form sets one timer and each timer runs once: the
    registry is as long as the pending timers and the tasks that ran,
    together. *)
Theorem one_task_per_satellite (l : list action) (st : State) :
  performAll l initial = Some st ->
  List.length (satellites st)
  = (List.length (timers st) + List.length (filter isTask l))%nat.
Proof.
  intros Hrun.
  destruct (performAll_effect l initial st Hrun) as (_ & _ & Hq).
  simpl in Hq. lia.
Qed.

Lemma one_task_per_satellite_witness :
  List.length (satellites collisionState)
  = (List.length (timers collisionState)
     + List.length
         (filter isTask
                 [SetName "ISS"; SetAltitude "400"; SetInclination "51.6";
                  Add 1700000000000; Task 0 collisionEnv]))%nat.
Proof.
  apply (one_task_per_satellite
           [SetName "ISS"; SetAltitude "400"; SetInclination "51.6";
            Add 1700000000000; Task 0 collisionEnv]
           collisionState).
  vm_compute. reflexivity.
Defined.

(** X17: whatever the component did, the active alerts are at most twice
    as many as the tasks that have run: the alerts, and two for each
    pending timer, do not outnumber two for each registered satellite. *)
Theorem alerts_bounded_by_registry (st : State) :
  possible st ->
  (List.length (alerts st) + 2 * List.length (timers st)
   <= 2 * List.length (satellites st))%nat.
Proof.
  intros Hp. now destruct (possible_linked st Hp) as (_ & _ & _ & Hl).
Qed.

Lemma alerts_bounded_by_registry_witness :
  (List.length (alerts collisionState) + 2 * List.length (timers collisionState)
   <= 2 * List.length (satellites collisionState))%nat.
Proof.
  apply (alerts_bounded_by_registry collisionState).
  apply reachable_possible.
  exists 1699999990000, collisionTrace, 1700000010020.
  vm_compute. reflexivity.
Defined.

(** ** What the scene shows *)

(** X19: whatever the component did, each active alert shows in the
    scene: every registered satellite whose identifier is the alert's
    [satelliteId] is drawn in the hazard colour, and there is one. *)
Theorem listed_alert_marks_satellite (st : State) (a : Alert.t) :
  possible st -> In a (alerts st) ->
  (exists s, In s (satellites st) /\ Satellite.id s = Alert.satelliteId a)
  /\ forall s, Satellite.id s = Alert.satelliteId a ->
               hasAlert st s = true /\ satColor st s = 0xff0000.
Proof.
  intros Hp Hin.
  destruct (possible_linked st Hp) as (_ & _ & Ha & _).
  rewrite Forall_forall in Ha. split; [exact (Ha a Hin)|].
  intros s Hid.
  assert (H : hasAlert st s = true).
  { unfold hasAlert. apply existsb_exists. exists a.
    split; [assumption|]. apply Z.eqb_eq. now symmetry. }
  split; [assumption|]. unfold satColor. now rewrite H.
Qed.

Lemma listed_alert_marks_satellite_witness :
  (exists s, In s (satellites collisionState)
             /\ Satellite.id s = Alert.satelliteId issCme)
  /\ forall s, Satellite.id s = Alert.satelliteId issCme ->
               hasAlert collisionState s = true
               /\ satColor collisionState s = 0xff0000.
Proof.
  apply (listed_alert_marks_satellite collisionState issCme).
  - apply reachable_possible.
    exists 1699999990000, collisionTrace, 1700000010020.
    vm_compute. reflexivity.
  - simpl. now left.
Defined.

(** X20: executing an alert never puts a satellite in the hazard state: a
    satellite drawn as a hazard afterwards was drawn so before. *)
Theorem executeAction_never_raises_hazard
    (alert : Alert.t) (st : State) (sat : Satellite.t) :
  hasAlert (executeAction alert st) sat = true -> hasAlert st sat = true.
Proof.
  destruct (Alert.executed alert) eqn:E;
    [now rewrite executeAction_executed|].
  unfold hasAlert. rewrite executeAction_alerts by assumption.
  rewrite !existsb_exists. intros (a & Hin & Ha).
  exists a. split; [|assumption]. now apply filter_In in Hin.
Qed.

Lemma executeAction_never_raises_hazard_witness :
  hasAlert (mkState [iss] [issCme; issConjunction] [] "" "" "" []) iss = true.
Proof.
  apply (executeAction_never_raises_hazard
           (Alert.mk 1 2 "" "" false)
           (mkState [iss] [issCme; issConjunction] [] "" "" "" []) iss).
  reflexivity.
Defined.

(** X21: executing a pending alert returns to the normal colour every
    satellite whose active alerts all carry the executed alert's
    identifier. *)
Theorem executeAction_clears_hazard
    (alert : Alert.t) (st : State) (sat : Satellite.t) :
  Alert.executed alert = false ->
  (forall a, In a (alerts st) ->
             Alert.satelliteId a = Satellite.id sat ->
             Alert.id a = Alert.id alert) ->
  hasAlert (executeAction alert st) sat = false
  /\ satColor (executeAction alert st) sat = 0xffaa00.
Proof.
  intros E Hall.
  assert (H : hasAlert (executeAction alert st) sat = false).
  { unfold hasAlert. rewrite executeAction_alerts by assumption.
    destruct (existsb _ _) eqn:Ex; [|reflexivity].
    apply existsb_exists in Ex. destruct Ex as (a & Hin & Ha).
    apply filter_In in Hin. destruct Hin as [Hin Hne].
    apply Z.eqb_eq in Ha. apply negb_true_iff, Z.eqb_neq in Hne.
    now apply Hall in Ha. }
  split; [assumption|]. unfold satColor. now rewrite H.
Qed.

Lemma executeAction_clears_hazard_witness :
  hasAlert (executeAction issCme collisionState) iss = false
  /\ satColor (executeAction issCme collisionState) iss = 0xffaa00.
Proof.
  apply (executeAction_clears_hazard issCme collisionState iss).
  - reflexivity.
  - simpl. intros a [<- | [<- | []]] _; vm_compute; reflexivity.
Defined.

(** ** The offset of a conjunction alert's identifier *)

Lemma iter_pos_nat {A} (f : A -> A) (p : positive) :
  forall x, iter_pos f p x = Nat.iter (Pos.to_nat p) f x.
Proof.
  induction p as [p IH|p IH|]; intros x; cbn [iter_pos].
  - rewrite !IH, Pos2Nat.inj_xI.
    replace (S (2 * Pos.to_nat p)) with (S (Pos.to_nat p + Pos.to_nat p)) by lia.
    now rewrite Nat.iter_succ_r, Nat.iter_add.
  - rewrite !IH, Pos2Nat.inj_xO.
    replace (2 * Pos.to_nat p)%nat with (Pos.to_nat p + Pos.to_nat p)%nat by lia.
    now rewrite Nat.iter_add.
  - reflexivity.
Qed.

Lemma shr_1_spec (mrs : shr_record) :
  0 <= shr_m mrs ->
  shr_m (shr_1 mrs) = shr_m mrs / 2 /\ shr_r (shr_1 mrs) = Z.odd (shr_m mrs).
Proof.
  destruct mrs as [m r s]. cbn [shr_m].
  destruct m as [|[p|p|]|p]; intros H; try lia; cbn [shr_1 shr_m shr_r];
    rewrite <- Z.div2_div; split; reflexivity.
Qed.

(** [k] steps to the right: the mantissa is divided by [2^k], and the
    round bit is the last bit that left. *)
Lemma shr_iter_spec (k : nat) (mrs : shr_record) :
  0 <= shr_m mrs ->
  shr_m (Nat.iter k shr_1 mrs) = shr_m mrs / 2 ^ Z.of_nat k
  /\ (k <> O ->
      shr_r (Nat.iter k shr_1 mrs) = Z.odd (shr_m mrs / 2 ^ (Z.of_nat k - 1))).
Proof.
  intros H0. induction k as [|k [IHm IHr]].
  - simpl. split; [now rewrite Z.div_1_r | congruence].
  - rewrite Nat.iter_succ.
    assert (Hk : 0 <= shr_m (Nat.iter k shr_1 mrs)).
    { rewrite IHm. apply Z.div_pos; [assumption|]. apply Z.pow_pos_nonneg; lia. }
    destruct (shr_1_spec _ Hk) as [Em Er].
    assert (Hp : 0 < 2 ^ Z.of_nat k) by (apply Z.pow_pos_nonneg; lia).
    split.
    + rewrite Em, IHm. rewrite Z.div_div; [|lia|lia].
      rewrite Nat2Z.inj_succ, Z.pow_succ_r; [|lia]. f_equal. lia.
    + intros _. rewrite Er, IHm.
      replace (Z.of_nat (S k) - 1) with (Z.of_nat k) by lia. reflexivity.
Qed.

Lemma shr_spec (m e n : Z) :
  0 <= m ->
  (n <= 0 /\ shr (Build_shr_record m false false) e n
             = (Build_shr_record m false false, e))
  \/ (0 < n
      /\ exists mrs,
           shr (Build_shr_record m false false) e n = (mrs, e + n)
           /\ shr_m mrs = m / 2 ^ n
           /\ (shr_r mrs = true -> (2 * shr_m mrs + 1) * 2 ^ (n - 1) <= m)).
Proof.
  intros Hm. destruct n as [|p|p].
  - left. split; [lia | reflexivity].
  - right. split; [lia|]. eexists. split; [reflexivity|].
    rewrite iter_pos_nat.
    destruct (shr_iter_spec (Pos.to_nat p) (Build_shr_record m false false) Hm)
      as [Em Er].
    rewrite positive_nat_Z in Em, Er. cbn [shr_m] in Em, Er.
    split; [exact Em|].
    rewrite Em, Er by (pose proof (Pos2Nat.is_pos p); lia).
    intros Hodd. apply Z.odd_spec in Hodd. destruct Hodd as [b Hb].
    assert (Hp : 0 < 2 ^ (Z.pos p - 1)) by (apply Z.pow_pos_nonneg; lia).
    assert (E2 : 2 ^ Z.pos p = 2 ^ (Z.pos p - 1) * 2).
    { replace (Z.pos p) with (Z.succ (Z.pos p - 1)) at 1 by lia.
      rewrite Z.pow_succ_r by lia. lia. }
    assert (Ediv : m / 2 ^ Z.pos p = b).
    { rewrite E2, <- Z.div_div by lia. rewrite Hb.
      rewrite Z.mul_comm, Z.div_add_l by lia. change (1 / 2) with 0. lia. }
    rewrite Ediv, <- Hb.
    rewrite Z.mul_comm. apply Z.mul_div_le. assumption.
  - left. split; [lia | reflexivity].
Qed.

Lemma round_nearest_even_bounds (mrs : shr_record) :
  shr_m mrs
  <= round_nearest_even (shr_m mrs) (loc_of_shr_record mrs)
  <= shr_m mrs + 1
  /\ (shr_r mrs = false ->
      round_nearest_even (shr_m mrs) (loc_of_shr_record mrs) = shr_m mrs).
Proof.
  destruct mrs as [m [|] [|]]; cbn [shr_m shr_r loc_of_shr_record round_nearest_even];
    try destruct (Z.even m); split; (lia || congruence || reflexivity).
Qed.


Lemma below1000_floor (p : positive) (e : Z) :
  below1000 (Zpos p) e -> JS.floor (S754_finite false p e) <= 999.
Proof.
  intros [He [_ Hm]]. unfold JS.floor.
  replace (0 <=? e) with false by (symmetry; apply Z.leb_gt; lia).
  rewrite Z.shiftr_div_pow2 by lia.
  assert (0 < 2 ^ (- e)) by (apply Z.pow_pos_nonneg; lia).
  assert (Z.pos p / 2 ^ (- e) < 1000); [|lia].
  apply Z.div_lt_upper_bound; lia.
Qed.

(** One more rounding to the format leaves a value below 1000 there. *)
Lemma below1000_shr (m e n : Z) (mrs : shr_record) (e' : Z) :
  below1000 m e ->
  n = fexp JS.prec JS.emax (Zdigits2 m + e) - e ->
  shr (Build_shr_record m false false) e n = (mrs, e') ->
  below1000 (shr_m mrs) e'.
Proof.
  intros [He [Hm0 Hm]] Hn Hshr.
  destruct (shr_spec m e n Hm0) as [[_ E] | [Hpos (mrs1 & E & Em & _)]];
    rewrite E in Hshr; injection Hshr as <- <-.
  - repeat split; assumption.
  - assert (He' : e + n <= -43).
    { destruct m as [|q|q]; [|clear Hm0|lia].
      { cbn [Zdigits2] in Hn. unfold fexp, emin, JS.prec, JS.emax in Hn. lia. }
      pose proof (digits2_pos_bounds q) as [Hlo _].
      cbn [Zdigits2] in Hn.
      set (d := Z.pos (digits2_pos q)) in *.
      assert (d - 1 < 10 + - e).
      { apply (Z.pow_lt_mono_r_iff 2); [lia | lia |].
        rewrite Z.pow_add_r by lia. change (2 ^ 10) with 1024.
        assert (0 < 2 ^ (- e)) by (apply Z.pow_pos_nonneg; lia). lia. }
      unfold fexp, emin, JS.prec, JS.emax in Hn. lia. }
    split; [assumption|]. rewrite Em.
    assert (Hp : 0 < 2 ^ n) by (apply Z.pow_pos_nonneg; lia).
    split; [apply Z.div_pos; lia|].
    apply Z.div_lt_upper_bound; [assumption|].
    replace (2 ^ n * (1000 * 2 ^ (- (e + n)))) with (1000 * (2 ^ n * 2 ^ (- (e + n))))
      by lia.
    rewrite <- Z.pow_add_r by lia.
    now replace (n + - (e + n)) with (- e) by lia.
Qed.

(** A draw is below one: its exponent is at most -53. *)
Lemma isDraw_finite (m : positive) (e : Z) :
  isDraw (S754_finite false m e) = true -> Zpos m < 2 ^ 53 /\ e <= -53.
Proof.
  cbn [isDraw]. intros H. apply andb_true_iff in H. destruct H as [Hb Hlt].
  apply bounded_digits in Hb. destruct Hb as [Hhi Hlo].
  split; [assumption|].
  replace (JS.ofZ 1) with (S754_finite false 4503599627370496 (-52)) in Hlt
    by (vm_compute; reflexivity).
  unfold JS.ltb, SFltb, SFcompare in Hlt.
  destruct (Z.compare_spec e (-52)) as [-> | H | H]; try discriminate; [|lia].
  exfalso. rewrite Pos.compare_cont_spec in Hlt. simpl Pos.switch_Eq in Hlt.
  destruct (Pos.compare_spec m 4503599627370496) as [? | Hm | ?];
    try discriminate.
  apply Pos2Z.pos_lt_pos in Hm. specialize (Hlo ltac:(lia)).
  change (2 ^ 52) with 4503599627370496 in Hlo. lia.
Qed.

(** The product of a draw with 1000, rounded to nearest, stays below
    1000: the draw is at most [1 - 2^-53], and [1000 - 1000 * 2^-53] is
    nearer to the binary64 value just below 1000 than to 1000. *)
Lemma mul_1000_round (m : positive) (e : Z) (mrs : shr_record) (e1 : Z) :
  Zpos m < 2 ^ 53 -> e <= -53 ->
  shr_fexp JS.prec JS.emax (Zpos (m * 8796093022208000)) (e + -43) loc_Exact
  = (mrs, e1) ->
  below1000 (round_nearest_even (shr_m mrs) (loc_of_shr_record mrs)) e1.
Proof.
  intros Hm He Hshr.
  set (mx := Zpos (m * 8796093022208000)) in *.
  set (ex := e + -43) in *.
  assert (Emx : mx = 1000 * 8796093022208 * Zpos m)
    by (unfold mx; rewrite Pos2Z.inj_mul; lia).
  assert (HA : 2 ^ 53 <= 2 ^ (- e)) by (apply Z.pow_le_mono_r; lia).
  assert (EA : 2 ^ (- ex) = 8796093022208 * 2 ^ (- e)).
  { unfold ex. replace (- (e + -43)) with (43 + - e) by lia.
    rewrite Z.pow_add_r by lia. reflexivity. }
  change (2 ^ 53) with 9007199254740992 in *.
  assert (Hx : below1000 mx ex).
  { unfold below1000. rewrite EA. unfold ex. lia. }
  unfold shr_fexp in Hshr. cbn [shr_record_of_loc] in Hshr.
  remember (fexp JS.prec JS.emax (Zdigits2 mx + ex) - ex) as n eqn:En.
  pose proof (below1000_shr mx ex n mrs e1 Hx En Hshr) as [He1 [Hm1 Hm1']].
  destruct (round_nearest_even_bounds mrs) as [[Hlo Hhi] Hsame].
  split; [assumption|]. split; [lia|].
  destruct (shr_r mrs) eqn:Er; [|rewrite Hsame by reflexivity; assumption].
  destruct (shr_spec mx ex n ltac:(lia))
    as [[_ E] | [Hpos (mrs1 & E & Em & Hr)]];
    rewrite E in Hshr; injection Hshr as Emrs Ee1; subst mrs e1;
    [discriminate|].
  specialize (Hr Er).
  set (m1 := shr_m mrs1) in *.
  assert (HP : 0 < 2 ^ (n - 1)) by (apply Z.pow_pos_nonneg; lia).
  assert (HG : 8796093022208 <= 2 ^ (- (ex + n)))
    by (change 8796093022208 with (2 ^ 43); apply Z.pow_le_mono_r; lia).
  assert (EG : 2 ^ (- (ex + n)) * (2 * 2 ^ (n - 1)) = 8796093022208 * 2 ^ (- e)).
  { rewrite <- EA. rewrite <- (Z.pow_succ_r 2 (n - 1)) by lia.
    rewrite <- Z.pow_add_r by lia. f_equal. lia. }
  set (P := 2 ^ (n - 1)) in *. set (G := 2 ^ (- (ex + n))) in *.
  set (A := 2 ^ (- e)) in *.
  destruct (Z_lt_le_dec (m1 + 1) (1000 * G)) as [Hok | Hbad]; [lia|].
  exfalso.
  assert (S1 : (2000 * G - 1) * P <= (2 * m1 + 1) * P)
    by (apply Z.mul_le_mono_nonneg_r; lia).
  assert (S2 : 8796093022208 * P <= G * P)
    by (apply Z.mul_le_mono_nonneg_r; lia).
  assert (S3 : Zpos m * 9007199254740992 <= 9007199254740991 * A) by nia.
  lia.
Qed.

(** The offset [Math.floor(Math.random() * 1000)] is an integer from 0 to
    999. *)
Lemma floor_draw_bounds (x : JS.number) :
  isDraw x = true -> 0 <= JS.floor (JS.mul x (JS.ofZ 1000)) <= 999.
Proof.
  intros Hd. split; [now apply floor_draw_nonneg|].
  rewrite ofZ_1000.
  destruct x as [[|]|s| |[|] m e]; try discriminate.
  destruct (isDraw_finite m e Hd) as [Hm He].
  unfold JS.mul, SFmul, binary_round_aux. cbn [xorb].
  destruct (shr_fexp _ _ (Z.pos (m * 8796093022208000)) _ _) as [mrs e1] eqn:E1.
  pose proof (mul_1000_round m e mrs e1 Hm He E1) as Hr.
  destruct (shr_fexp _ _ _ e1 _) as [mrs2 e2] eqn:E2.
  unfold shr_fexp in E2. cbn [shr_record_of_loc] in E2.
  pose proof (below1000_shr _ _ _ mrs2 e2 Hr eq_refl E2) as H2.
  destruct (shr_m mrs2) as [|p|p]; try (vm_compute; discriminate).
  destruct (e2 <=? _); [now apply below1000_floor | vm_compute; discriminate].
Qed.

(** X23: the identifier of a conjunction alert lies in the second that
    starts when the alert is built: it is [Date.now()] plus an integer from
    0 to 999. *)
Theorem conjunction_alert_id_window
    (chance draw : JS.number) (now satelliteId : Z) (a : Alert.t) :
  isDraw draw = true ->
  simulateConjunctionAlert chance now draw satelliteId = Some a ->
  now <= Alert.id a <= now + 999.
Proof.
  intros Hd. unfold simulateConjunctionAlert.
  pose proof (floor_draw_bounds draw Hd) as Hb.
  set (off := JS.floor (JS.mul draw (JS.ofZ 1000))) in *.
  destruct (JS.ltb _ _); [discriminate|].
  intros [= <-]. cbn [Alert.id]. lia.
Qed.

Lemma conjunction_alert_id_window_witness :
  nowConj collisionEnv <= Alert.id issConjunction <= nowConj collisionEnv + 999.
Proof.
  apply (conjunction_alert_id_window (chance collisionEnv) (draw collisionEnv)
                                     (nowConj collisionEnv) (Satellite.id iss)
                                     issConjunction).
  - vm_compute. reflexivity.
  - vm_compute. reflexivity.
Defined.

(** X24: whatever the component did, each alert of the active collection
    is pending, and the handler of its button in the current render makes
    the collection shorter, takes that alert out of it and logs one
    entry. *)
Theorem listed_alert_can_be_executed (st : State) (a : Alert.t) :
  possible st -> In a (alerts st) ->
  Alert.executed a = false
  /\ (List.length (alerts (executeAction a st)) < List.length (alerts st))%nat
  /\ ~ In a (alerts (executeAction a st))
  /\ List.length (executedActions (executeAction a st))
     = S (List.length (executedActions st)).
Proof.
  intros Hposs Hin.
  pose proof (possible_pending st Hposs) as Hp.
  unfold allPending in Hp. rewrite Forall_forall in Hp.
  pose proof (Hp a Hin) as Hx. split; [assumption|].
  pose proof (executeAction_length a st Hx) as Hlen.
  assert (Hc : (1 <= countId (Alert.id a) (alerts st))%nat).
  { unfold countId.
    assert (Hf : In a (filter (fun b => Alert.id b =? Alert.id a) (alerts st)))
      by (apply filter_In; split; [assumption | apply Z.eqb_refl]).
    destruct (filter _ (alerts st)); [contradiction | simpl; lia]. }
  split; [lia|]. split.
  - rewrite executeAction_alerts by assumption.
    rewrite filter_In. intros [_ Hn]. now rewrite Z.eqb_refl in Hn.
  - rewrite executeAction_log by assumption.
    rewrite length_app. simpl. lia.
Qed.

Lemma listed_alert_can_be_executed_witness :
  Alert.executed issCme = false
  /\ (List.length (alerts (executeAction issCme collisionState))
      < List.length (alerts collisionState))%nat
  /\ ~ In issCme (alerts (executeAction issCme collisionState))
  /\ List.length (executedActions (executeAction issCme collisionState))
     = S (List.length (executedActions collisionState)).
Proof.
  apply (listed_alert_can_be_executed collisionState issCme).
  - apply reachable_possible.
    exists 1699999990000, collisionTrace, 1700000010020.
    vm_compute. reflexivity.
  - simpl. now left.
Defined.

(** ** What the two number inputs hand over *)

Lemma shr_nonneg (mrs : shr_record) (e n : Z) :
  0 <= shr_m mrs -> 0 <= shr_m (fst (shr mrs e n)).
Proof.
  intros H. destruct n as [|p|p]; cbn [shr fst]; try assumption.
  rewrite iter_pos_nat.
  destruct (shr_iter_spec (Pos.to_nat p) mrs H) as [-> _].
  apply Z.div_pos; [assumption|]. apply Z.pow_pos_nonneg; lia.
Qed.

Lemma shr_record_of_loc_m (m : Z) (l : location) :
  shr_m (shr_record_of_loc m l) = m.
Proof. destruct l as [|[| |]]; reflexivity. Qed.

(** Rounding a non-negative mantissa never gives [NaN]. *)
Lemma binary_round_aux_not_nan (sx : bool) (mx ex : Z) (lx : location) :
  0 <= mx ->
  JS.isNaN (binary_round_aux JS.prec JS.emax sx mx ex lx) = false.
Proof.
  intros H. unfold binary_round_aux, shr_fexp.
  pose proof (shr_nonneg (shr_record_of_loc mx lx) ex
                (fexp JS.prec JS.emax (Zdigits2 mx + ex) - ex)) as H1.
  rewrite shr_record_of_loc_m in H1. specialize (H1 H).
  destruct (shr (shr_record_of_loc mx lx) ex _) as [mrs1 e1]. cbn [fst] in H1.
  destruct (round_nearest_even_bounds mrs1) as [[Hlo _] _].
  set (mr := round_nearest_even (shr_m mrs1) (loc_of_shr_record mrs1)) in *.
  pose proof (shr_nonneg (shr_record_of_loc mr loc_Exact) e1
                (fexp JS.prec JS.emax (Zdigits2 mr + e1) - e1)) as H2.
  rewrite shr_record_of_loc_m in H2. specialize (H2 ltac:(lia)).
  destruct (shr (shr_record_of_loc mr loc_Exact) e1 _) as [mrs2 e2].
  cbn [fst] in H2.
  destruct (shr_m mrs2) as [|p|p]; [reflexivity| |lia].
  now destruct (e2 <=? _).
Qed.

Lemma ofDecimal_not_nan (neg : bool) (m : N) (e : Z) :
  JS.isNaN (JS.ofDecimal neg m e) = false.
Proof.
  unfold JS.ofDecimal. destruct m as [|p]; [reflexivity|].
  destruct e as [|k|k].
  - unfold binary_round. destruct (shl_align _ _ _) as [mz ez].
    apply binary_round_aux_not_nan. lia.
  - unfold binary_round. destruct (shl_align _ _ _) as [mz ez].
    apply binary_round_aux_not_nan. lia.
  - unfold SFdiv, SFdiv_core_binary.
    set (m' := match _ with Z.pos _ => _ | Z0 => _ | Z.neg _ => _ end).
    assert (Hm' : 0 <= m').
    { unfold m'. destruct (_ - _ - _); try lia. apply Z.shiftl_nonneg. lia. }
    pose proof (Z.div_pos m' (Z.pos (10 ^ k)) Hm' ltac:(lia)) as Hq.
    unfold Z.div in Hq.
    destruct (Z.div_eucl m' (Z.pos (10 ^ k))) as [q r].
    now apply binary_round_aux_not_nan.
Qed.

Lemma signOf_eq (s : string) :
  JS.signOf s
  = match s with
    | String c s' =>
        if Ascii.eqb c "-" then (true, s')
        else if Ascii.eqb c "+" then (false, s') else (false, s)
    | EmptyString => (false, s)
    end.
Proof.
  destruct s as [|c s']; [reflexivity|].
  destruct c as [[|] [|] [|] [|] [|] [|] [|] [|]]; reflexivity.
Qed.

Lemma dot_match {A} (s : string) (f : string -> A) (d : A) :
  match s with String "." s' => f s' | _ => d end
  = match s with
    | String c s' => if Ascii.eqb c "." then f s' else d
    | EmptyString => d
    end.
Proof.
  destruct s as [|c s']; [reflexivity|].
  destruct c as [[|] [|] [|] [|] [|] [|] [|] [|]]; reflexivity.
Qed.

Lemma minus_match {A} (s : string) (f : string -> A) (d : A) :
  match s with String "-" s' => f s' | _ => d end
  = match s with
    | String c s' => if Ascii.eqb c "-" then f s' else d
    | EmptyString => d
    end.
Proof.
  destruct s as [|c s']; [reflexivity|].
  destruct c as [[|] [|] [|] [|] [|] [|] [|] [|]]; reflexivity.
Qed.

(** The count and the rest of a run of digits do not depend on the value
    gathered so far, and the count only grows. *)
Lemma digits_rest (s : string) :
  forall acc acc' cnt,
    snd (fst (JS.digits s acc cnt)) = snd (fst (JS.digits s acc' cnt))
    /\ snd (JS.digits s acc cnt) = snd (JS.digits s acc' cnt)
    /\ (cnt <= snd (fst (JS.digits s acc cnt)))%nat.
Proof.
  induction s as [|c s IH]; intros acc acc' cnt; simpl.
  - auto.
  - destruct (JS.isDigit c); [|simpl; auto].
    destruct (IH (acc * 10 + JS.digitVal c)%N (acc' * 10 + JS.digitVal c)%N (S cnt))
      as (H1 & H2 & H3).
    repeat split; try assumption. lia.
Qed.

(** Without a digit in front, nothing is consumed. *)
Lemma digits_none (s : string) (acc : N) :
  snd (fst (JS.digits s acc O)) = O ->
  JS.digits s acc O = (acc, O, s)
  /\ match s with String c _ => JS.isDigit c = false | EmptyString => True end.
Proof.
  destruct s as [|c s]; simpl; [auto|].
  destruct (JS.isDigit c) eqn:E; [|auto].
  intros H. pose proof (digits_rest s (acc * 10 + JS.digitVal c)%N 0%N 1) as (_ & _ & Hc).
  lia.
Qed.

Lemma leadingWs_none (c : ascii) (s : string) :
  (Ascii.eqb c "-" || Ascii.eqb c "." || JS.isDigit c) = true ->
  JS.leadingWs (String c s) = None.
Proof.
  destruct c as [[|] [|] [|] [|] [|] [|] [|] [|]]; try discriminate;
    intros _; reflexivity.
Qed.

Lemma prefix_Infinity (s : string) :
  match s with String c _ => c <> "I"%char | EmptyString => True end ->
  prefix "Infinity" s = false.
Proof.
  destruct s as [|c s]; [reflexivity|]. intros H.
  change (prefix "Infinity" (String c s))
    with (if ascii_dec "I" c then prefix "nfinity" s else false).
  destruct (ascii_dec "I" c) as [E|]; [|reflexivity]. now symmetry in E.
Qed.

(** After the sign: a text that is valid from here on is parsed to a
    number. *)
Lemma valid_unsigned_parse (neg : bool) (s0 : string) :
  (let '(_, icnt, s1) := JS.digits s0 0%N O in
   match s1 with
   | String c s1' =>
       if Ascii.eqb c "." then
         let '(_, fcnt, s2) := JS.digits s1' 0%N O in
         match fcnt with O => false | S _ => JS.validExponent s2 end
       else match icnt with O => false | S _ => JS.validExponent s1 end
   | EmptyString => match icnt with O => false | S _ => JS.validExponent s1 end
   end) = true ->
  JS.isNaN
    (if prefix "Infinity" s0 then S754_infinity neg
     else
       let '(ip, icnt, s1) := JS.digits s0 0%N O in
       let '(m, fcnt, s2) :=
         match s1 with
         | String c s1' =>
             if Ascii.eqb c "." then
               let '(m, fcnt, s2) := JS.digits s1' ip O in
               match icnt, fcnt with
               | O, O => (ip, O, s1)
               | _, _ => (m, fcnt, s2)
               end
             else (ip, O, s1)
         | EmptyString => (ip, O, s1)
         end in
       match icnt, fcnt with
       | O, O => S754_nan
       | _, _ => JS.ofDecimal neg m (JS.exponentPart s2 - Z.of_nat fcnt)
       end) = false.
Proof.
  intros H.
  assert (HI : prefix "Infinity" s0 = false).
  { apply prefix_Infinity. destruct s0 as [|c s0']; [exact I|].
    intros ->. simpl in H. discriminate. }
  rewrite HI.
  destruct (JS.digits s0 0%N O) as [[ip icnt] s1].
  destruct s1 as [|c1 s1'].
  - destruct icnt; [discriminate|]. apply ofDecimal_not_nan.
  - destruct (Ascii.eqb c1 ".").
    + pose proof (digits_rest s1' ip 0%N O) as (Hc & _ & _).
      destruct (JS.digits s1' ip O) as [[m fcnt] s2].
      destruct (JS.digits s1' 0%N O) as [[m' fcnt'] s2'].
      cbn [fst snd] in Hc. subst fcnt'.
      destruct fcnt; [discriminate|].
      destruct icnt; apply ofDecimal_not_nan.
    + destruct icnt; [discriminate|]. apply ofDecimal_not_nan.
Qed.

Lemma validFloat_eq (s : string) :
  JS.validFloat s
  = let s0 := match s with
              | String c s' => if Ascii.eqb c "-" then s' else s
              | EmptyString => s
              end in
    let '(_, icnt, s1) := JS.digits s0 0%N O in
    match s1 with
    | String c s1' =>
        if Ascii.eqb c "." then
          let '(_, fcnt, s2) := JS.digits s1' 0%N O in
          match fcnt with O => false | S _ => JS.validExponent s2 end
        else match icnt with O => false | S _ => JS.validExponent s1 end
    | EmptyString => match icnt with O => false | S _ => JS.validExponent s1 end
    end.
Proof.
  unfold JS.validFloat. rewrite minus_match. cbv zeta.
  destruct (JS.digits _ 0%N O) as [[ip icnt] s1].
  apply dot_match.
Qed.

Lemma parseFloat_eq (neg : bool) (s0 input : string) :
  JS.signOf (JS.trimStart (String.length input) input) = (neg, s0) ->
  JS.parseFloat input
  = if prefix "Infinity" s0 then S754_infinity neg
    else
      let '(ip, icnt, s1) := JS.digits s0 0%N O in
      let '(m, fcnt, s2) :=
        match s1 with
        | String c s1' =>
            if Ascii.eqb c "." then
              let '(m, fcnt, s2) := JS.digits s1' ip O in
              match icnt, fcnt with
              | O, O => (ip, O, s1)
              | _, _ => (m, fcnt, s2)
              end
            else (ip, O, s1)
        | EmptyString => (ip, O, s1)
        end in
      match icnt, fcnt with
      | O, O => S754_nan
      | _, _ => JS.ofDecimal neg m (JS.exponentPart s2 - Z.of_nat fcnt)
      end.
Proof.
  intros E. unfold JS.parseFloat. rewrite E.
  destruct (prefix "Infinity" s0); [reflexivity|].
  destruct (JS.digits s0 0%N O) as [[ip icnt] s1].
  now rewrite dot_match.
Qed.

(** What a number input hands over, when it is not the empty string, is a
    text [parseFloat] turns into a number. *)
Lemma validFloat_parse (s : string) :
  JS.validFloat s = true -> JS.isNaN (JS.parseFloat s) = false.
Proof.
  intros H. rewrite validFloat_eq in H. cbv zeta in H.
  destruct s as [|c s']; [discriminate|].
  assert (Hc : (Ascii.eqb c "-" || Ascii.eqb c "." || JS.isDigit c) = true).
  { destruct (Ascii.eqb c "-"); [reflexivity|].
    destruct (Ascii.eqb c ".") eqn:Ed; [reflexivity|]. simpl.
    simpl in H. destruct (JS.isDigit c); [reflexivity|].
    rewrite Ed in H. discriminate. }
  assert (Et : JS.trimStart (String.length (String c s')) (String c s')
               = String c s').
  { cbn [String.length JS.trimStart]. now rewrite leadingWs_none. }
  destruct (Ascii.eqb c "-") eqn:Em.
  - rewrite (parseFloat_eq true s').
    + now apply valid_unsigned_parse.
    + rewrite Et, signOf_eq. now rewrite Em.
  - rewrite (parseFloat_eq false (String c s')).
    + now apply valid_unsigned_parse.
    + rewrite Et, signOf_eq. rewrite Em.
      destruct (Ascii.eqb_spec c "+") as [->|]; [discriminate|reflexivity].
Qed.

Lemma validFloat_nonempty (s : string) : JS.validFloat s = true -> s <> "".
Proof. intros H ->. discriminate. Qed.

(** C7: a form in which a field is empty or cannot be parsed is turned
    down, and then nothing changes at all: no record, no timer, no error,
    the inputs as they were.  The two numeric fields are number inputs: what
    reaches the component is the typed text when it is a valid
    floating-point number and the empty string for any other text; a text
    [parseFloat] cannot parse is such a text, and so is every text the
    input itself turns down.  A form with a name and
    two valid numbers is accepted whatever the numbers are: no sign or
    range is checked. *)
Theorem addSatellite_rejects_empty_or_unparsable
    (now : Z) (st : State) (n a i : string) :
  let form :=
    setInclination (JS.numberInputValue i)
      (setAltitude (JS.numberInputValue a) (setName n st)) in
  (n = "" \/ a = "" \/ i = ""
   \/ JS.isNaN (JS.parseFloat a) = true \/ JS.isNaN (JS.parseFloat i) = true
   \/ JS.validFloat a = false \/ JS.validFloat i = false ->
   addSatellite now form = form)
  /\ (n <> "" -> JS.validFloat a = true -> JS.validFloat i = true ->
      satellites (addSatellite now form)
      = satellites st
        ++ [Satellite.mk now n (JS.parseFloat a) (JS.parseFloat i)]).
Proof.
  intros form.
  assert (Hnan : forall t, t = "" \/ JS.isNaN (JS.parseFloat t) = true
                           \/ JS.validFloat t = false ->
                           JS.numberInputValue t = "").
  { intros t Ht. unfold JS.numberInputValue.
    destruct (JS.validFloat t) eqn:E; [|reflexivity].
    destruct Ht as [-> | [Ht | Ht]]; [discriminate| |discriminate].
    rewrite validFloat_parse in Ht by assumption. discriminate. }
  split.
  - intros H. apply addSatellite_rejects_iff_empty. unfold form. simpl.
    destruct H as [H | [H | [H | [H | [H | [H | H]]]]]].
    + now left.
    + right. left. apply Hnan. now left.
    + right. right. apply Hnan. now left.
    + right. left. apply Hnan. right. now left.
    + right. right. apply Hnan. right. now left.
    + right. left. apply Hnan. right. now right.
    + right. right. apply Hnan. right. now right.
  - intros Hn Ha Hi.
    assert (Ea : JS.numberInputValue a = a)
      by (unfold JS.numberInputValue; now rewrite Ha).
    assert (Ei : JS.numberInputValue i = i)
      by (unfold JS.numberInputValue; now rewrite Hi).
    rewrite addSatellite_accepted; unfold form; simpl; rewrite ?Ea, ?Ei;
      try assumption; try reflexivity; now apply validFloat_nonempty.
Qed.

Lemma addSatellite_rejects_empty_or_unparsable_witness :
  addSatellite 1700000000000
    (setInclination (JS.numberInputValue "51.6")
       (setAltitude (JS.numberInputValue "abc") (setName "ISS" initial)))
  = setInclination (JS.numberInputValue "51.6")
      (setAltitude (JS.numberInputValue "abc") (setName "ISS" initial))
  /\ satellites
       (addSatellite 1700000000000
          (setInclination (JS.numberInputValue "-51.6")
             (setAltitude (JS.numberInputValue "-400") (setName "ISS" initial))))
     = [Satellite.mk 1700000000000 "ISS" (JS.parseFloat "-400")
                     (JS.parseFloat "-51.6")].
Proof.
  split.
  - apply (proj1 (addSatellite_rejects_empty_or_unparsable
                    1700000000000 initial "ISS" "abc" "51.6")).
    right. right. right. left. vm_compute. reflexivity.
  - apply (proj2 (addSatellite_rejects_empty_or_unparsable
                    1700000000000 initial "ISS" "-400" "-51.6"));
      [discriminate | reflexivity | reflexivity].
Defined.

(** Texts a number input turns down although [parseFloat] would read a
    number off their front. *)
Example numberInputValue_strict :
  map JS.numberInputValue ["12abc"; "5."; "+5"; " 5"; "1e"; "Infinity"; ""]
  = [""; ""; ""; ""; ""; ""; ""]
  /\ map JS.numberInputValue ["400"; "-0.5"; ".5"; "1e3"; "2.5E-3"]
     = ["400"; "-0.5"; ".5"; "1e3"; "2.5E-3"].
Proof. split; reflexivity. Qed.
